(** * Pig: a shallow embedding of [pig.py] and its turn engine

    The program plays the dice game Pig between two players.  Its objects
    ([Player], [ComputerPlayer], [Die], [Game], [TimedGameProxy]) are
    embedded as records in an explicit store; its methods are embedded as
    computations of a small state-and-exception monad over that store and
    over the three sources of input the program reads (the random stream
    behind [random.randint], the lines typed at the prompt, the readings of
    [time.time]) and the one sink it writes ([print]). *)

From Stdlib Require Import ZArith QArith String Ascii List Lia.
From stdpp Require Import base option list gmap.
Import ListNotations.

Local Open Scope Z_scope.

(** ** Objects *)

(** Object identities: the address of a [Player] instance. *)
Definition loc := nat.

(** The two classes a player object can be an instance of. *)
Inductive PlayerClass := PlayerC | ComputerPlayerC.

(** [Player.__init__] sets [name] and [score]; [cls] records the class whose
    [make_decision] the instance dispatches to. *)
Record Player := mkPlayer {
  cls : PlayerClass;
  name : string;
  score : Z
}.

Global Instance Player_inhabited : Inhabited Player :=
  populate (mkPlayer PlayerC EmptyString 0).

(** The two classes a game object can be an instance of. *)
Inductive GameClass := GameC | TimedGameProxyC.

(** The fields of a [Game] instance.  [die_value] is the [value] field of the
    [Die] the game owns; [start_time] exists on a [TimedGameProxy] only and
    is read by nothing else. *)
Record Game := mkGame {
  gcls : GameClass;
  players : list loc;
  die_value : Z;
  turn_total : Z;
  current_player : Z;
  start_time : Q
}.

(** What the program prints, one constructor per [print] (or prompt) of the
    source, carrying the values its f-string interpolates. *)
Inductive event :=
| PRolled (pname : string) (roll : Z)            (* "{name} rolled: {roll}" *)
| PBust (pname : string)                         (* "{name} rolled a 1! ..." *)
| PTurnTotal (total sc : Z)                      (* "Turn total: .., Total score: .." *)
| PPrompt (pname : string)                       (* "{name}, roll again (r) or hold (h)? " *)
| PTotal (pname : string) (sc : Z)               (* "{name}'s total score: .." *)
| PWelcome                                       (* "Welcome to the game of Pig!" *)
| PCongrats (pname : string) (sc : Z)            (* "Congratulations {name}, ..." *)
| PTimesUp                                       (* "Time's up!" *)
| PTimeWinner (pname : string) (sc : Z).         (* "Time's up! The winner is ..." *)

(** The whole state of a run: the store of player objects, the game object,
    what is still to come from the random stream, the prompt and the clock,
    and what was printed so far (oldest first). *)
Record state := mkState {
  heap : gmap loc Player;
  game : Game;
  rolls : list Z;
  stdin : list string;
  clock : list Q;
  stdout : list event
}.

Definition with_heap (h : gmap loc Player) (s : state) : state :=
  mkState h (game s) (rolls s) (stdin s) (clock s) (stdout s).
Definition with_game (g : Game) (s : state) : state :=
  mkState (heap s) g (rolls s) (stdin s) (clock s) (stdout s).
Definition with_rolls (r : list Z) (s : state) : state :=
  mkState (heap s) (game s) r (stdin s) (clock s) (stdout s).
Definition with_stdin (i : list string) (s : state) : state :=
  mkState (heap s) (game s) (rolls s) i (clock s) (stdout s).
Definition with_clock (c : list Q) (s : state) : state :=
  mkState (heap s) (game s) (rolls s) (stdin s) c (stdout s).
Definition with_stdout (o : list event) (s : state) : state :=
  mkState (heap s) (game s) (rolls s) (stdin s) (clock s) o.

Definition with_die_value (v : Z) (g : Game) : Game :=
  mkGame (gcls g) (players g) v (turn_total g) (current_player g) (start_time g).
Definition with_turn_total (v : Z) (g : Game) : Game :=
  mkGame (gcls g) (players g) (die_value g) v (current_player g) (start_time g).
Definition with_current_player (v : Z) (g : Game) : Game :=
  mkGame (gcls g) (players g) (die_value g) (turn_total g) v (start_time g).

(** The score of the player object at [l]. *)
Definition score_of (s : state) (l : loc) : Z := score (heap s !!! l).
Definition name_of (s : state) (l : loc) : string := name (heap s !!! l).

(** ** The monad *)

(** The exceptions the modelled code can raise. *)
Inductive exn := IndexError | EOFError | ValueError.

(** A computation returns, raises, or needs more of the random stream or of
    the clock than the state holds ([Starved]): the lists [rolls] and [clock]
    are finite prefixes of sources that never run dry, so [Starved] is the
    model's way of saying "still running".  Every outcome carries the state
    reached. *)
Inductive outcome (A : Type) :=
| Ret (a : A) (s : state)
| Raise (e : exn) (s : state)
| Starved (s : state).
Arguments Ret {A} a s.
Arguments Raise {A} e s.
Arguments Starved {A} s.

Definition M (A : Type) : Type := state -> outcome A.

Definition ret {A} (a : A) : M A := fun s => Ret a s.
Definition bind {A B} (m : M A) (f : A -> M B) : M B :=
  fun s => match m s with
           | Ret a s1 => f a s1
           | Raise e s1 => Raise e s1
           | Starved s1 => Starved s1
           end.
Definition raise {A} (e : exn) : M A := fun s => Raise e s.
Definition starve {A} : M A := fun s => Starved s.
Definition gets {A} (f : state -> A) : M A := fun s => Ret (f s) s.
Definition modify (f : state -> state) : M unit := fun s => Ret tt (f s).

Notation "'do' x <- m ; k" := (bind m (fun x => k))
  (at level 10, x name, m at level 100, k at level 200,
   format "'[v' 'do'  x  <-  m ; '/' k ']'").
Notation "'run' m ; k" := (bind m (fun _ => k))
  (at level 10, m at level 100, k at level 200,
   format "'[v' 'run'  m ; '/' k ']'").

(** The state an outcome was reached in. *)
Definition final {A} (o : outcome A) : state :=
  match o with Ret _ s | Raise _ s | Starved s => s end.

(** Loop control: what an iteration of a loop body ends with. *)
Inductive ctl := Break | Continue.

(** [while cond: body], with [break].  Halting is not decidable, so the loop
    takes a bound on its iterations; the callers below pass a bound that the
    oracle lists exhaust first. *)
Fixpoint while (fuel : nat) (cond : M bool) (body : M ctl) : M unit :=
  match fuel with
  | O => starve
  | S n =>
      do b <- cond;
      if b : bool then
        do c <- body;
        match c with
        | Break => ret tt
        | Continue => while n cond body
        end
      else ret tt
  end.

(** ** Built-ins *)

(** [print(...)]. *)
Definition print (e : event) : M unit :=
  modify (fun s => with_stdout (stdout s ++ [e]) s).

(** [input(prompt)]: shows the prompt and returns the next line typed;
    [EOFError] at end of input. *)
Definition input (prompt : event) : M string :=
  run print prompt;
  fun s => match stdin s with
           | [] => Raise EOFError s
           | line :: rest => Ret line (with_stdin rest s)
           end.

(** [time.time()]: the next reading of the clock, in seconds.  The source
    computes with floats; readings are rationals here and the subtraction in
    [TimedGameProxy.play_turn] is exact. *)
Definition time_time : M Q :=
  fun s => match clock s with
           | [] => Starved s
           | t :: rest => Ret t (with_clock rest s)
           end.

(** [random.randint(1, 6)]: the next value of the random stream. *)
Definition randint_1_6 : M Z :=
  fun s => match rolls s with
           | [] => Starved s
           | r :: rest => Ret r (with_rolls rest s)
           end.

(** What [random.randint(1, 6)] can return. *)
Definition die_face (r : Z) : Prop := 1 <= r <= 6.

(** [str.lower()] on a character and on a string.  Lines are ASCII text:
    the letters A-Z go to a-z and every other character is kept. *)
Definition lower_ascii (c : ascii) : ascii :=
  let n := N_of_ascii c in
  if ((65 <=? n) && (n <=? 90))%N then ascii_of_N (n + 32) else c.

Fixpoint lower (s : string) : string :=
  match s with
  | EmptyString => EmptyString
  | String c s' => String (lower_ascii c) (lower s')
  end.

(** [l[i]] for a Python list: negative indices count from the end, and an
    index out of range is an [IndexError] ([None] here). *)
Definition py_getitem {A} (l : list A) (i : Z) : option A :=
  let n := Z.of_nat (length l) in
  if (0 <=? i) && (i <? n) then l !! Z.to_nat i
  else if (- n <=? i) && (i <? 0) then l !! Z.to_nat (n + i)
  else None.

(** [max(l, key=key)]: the first element whose key is maximal; [None] stands
    for the [ValueError] on an empty list. *)
Definition py_max {A} (key : A -> Z) (l : list A) : option A :=
  match l with
  | [] => None
  | x :: xs =>
      Some (fold_left (fun best y => if key best <? key y then y else best) xs x)
  end.

(** [any(...)]. *)
Definition py_any {A} (p : A -> bool) (l : list A) : bool := existsb p l.

(** [x > y] on clock readings. *)
Definition Qgtb (x y : Q) : bool := negb (Qle_bool x y).

(** ** class Player, class ComputerPlayer *)

(** [Player(name)] and [ComputerPlayer(name)]: a new object, with the score
    [Player.__init__] gives it. *)
Definition new_player (c : PlayerClass) (nm : string) : M loc :=
  fun s =>
    let l := fresh (dom (heap s)) in
    Ret l (with_heap (<[l := mkPlayer c nm 0]> (heap s)) s).

(** [self.score += points] on the store: the object at [self] with its
    [score] field replaced. *)
Definition credit (self : loc) (points : Z) (h : gmap loc Player)
  : gmap loc Player :=
  let p := h !!! self in
  <[self := mkPlayer (cls p) (name p) (score p + points)]> h.

(** [Player.add_to_score]. *)
Definition add_to_score (self : loc) (points : Z) : M unit :=
  modify (fun s => with_heap (credit self points (heap s)) s).

(** [Player.make_decision]: the line typed at the prompt, in lower case. *)
Definition Player_make_decision (self : loc) (current_score turn_total : Z)
  : M string :=
  do nm <- gets (fun s => name_of s self);
  do decision <- input (PPrompt nm);
  ret (lower decision).

(** [ComputerPlayer.make_decision]: hold at the lesser of 25 and
    [100 - current_score]. *)
Definition ComputerPlayer_make_decision (self : loc)
    (current_score turn_total : Z) : M string :=
  if (turn_total + current_score >=? 100)
     || (turn_total >=? Z.min 25 (100 - current_score))
  then ret "h"%string
  else ret "r"%string.

(** [player.make_decision(...)]: dispatch on the class of the instance. *)
Definition make_decision (self : loc) (current_score turn_total : Z)
  : M string :=
  do c <- gets (fun s => cls (heap s !!! self));
  match c with
  | PlayerC => Player_make_decision self current_score turn_total
  | ComputerPlayerC => ComputerPlayer_make_decision self current_score turn_total
  end.

(** [PlayerFactory.create_player]. *)
Definition create_player (player_type nm : string) : M loc :=
  if String.eqb player_type "computer" then new_player ComputerPlayerC nm
  else if String.eqb player_type "human" then new_player PlayerC nm
  else raise ValueError.

(** ** class Die *)

(** [Die.roll]: [self.value = random.randint(1, 6); return self.value]. *)
Definition Die_roll : M Z :=
  do v <- randint_1_6;
  run modify (fun s => with_game (with_die_value v (game s)) s);
  gets (fun s => die_value (game s)).

(** ** class Game *)

(** [Game.__init__]: the four fields it sets. *)
Definition Game_init (player1 player2 : loc) : M unit :=
  modify (fun s =>
    with_game (mkGame (gcls (game s)) [player1; player2] 0 0 0
                      (start_time (game s))) s).

(** [Game(player1, player2)]. *)
Definition new_Game (player1 player2 : loc) : M unit :=
  run modify (fun s =>
        with_game (mkGame GameC [] 0 0 0 (start_time (game s))) s);
  Game_init player1 player2.

(** [Game.switch_player]: [self.current_player = 1 - self.current_player]. *)
Definition switch_player : M unit :=
  modify (fun s =>
    with_game (with_current_player (1 - current_player (game s)) (game s)) s).

Definition set_turn_total (v : Z) : M unit :=
  modify (fun s => with_game (with_turn_total v (game s)) s).

(** One iteration of the [while True] of [Game.play_turn], for the player
    object the method bound to [player] before the loop. *)
Definition play_turn_body (player : loc) : M ctl :=
  do roll <- Die_roll;
  do nm <- gets (fun s => name_of s player);
  run print (PRolled nm roll);
  if roll =? 1 then
    run print (PBust nm);
    run set_turn_total 0;
    run switch_player;
    ret Break
  else
    do t <- gets (fun s => turn_total (game s));
    run set_turn_total (t + roll);
    do total <- gets (fun s => turn_total (game s));
    do sc <- gets (fun s => score_of s player);
    run print (PTurnTotal total sc);
    do decision <- make_decision player sc total;
    if String.eqb decision "h" then
      do banked <- gets (fun s => turn_total (game s));
      run add_to_score player banked;
      do nm' <- gets (fun s => name_of s player);
      do sc' <- gets (fun s => score_of s player);
      run print (PTotal nm' sc');
      run switch_player;
      ret Break
    else ret Continue.

(** [self.players[self.current_player]]. *)
Definition active_player (s : state) : option loc :=
  py_getitem (players (game s)) (current_player (game s)).

(** [Game.play_turn].  Every iteration of its loop takes a roll from the
    random stream, so the bound given to [while] is never what stops it
    ([turn_bound_enough]). *)
Definition Game_play_turn : M unit :=
  do player <- gets active_player;
  match player with
  | None => raise IndexError
  | Some player =>
      run set_turn_total 0;
      fun s => while (S (length (rolls s))) (ret true) (play_turn_body player) s
  end.

(** [Game.is_winner]. *)
Definition is_winner (s : state) : bool :=
  py_any (fun player => score_of s player >=? 100) (players (game s)).

(** [max(self.players, key=lambda p: p.score)]. *)
Definition best_player : M loc :=
  do w <- gets (fun s => py_max (score_of s) (players (game s)));
  match w with
  | None => raise ValueError
  | Some winner => ret winner
  end.

(** [TimedGameProxy.declare_winner]. *)
Definition declare_winner : M unit :=
  do winner <- best_player;
  do nm <- gets (fun s => name_of s winner);
  do sc <- gets (fun s => score_of s winner);
  print (PTimeWinner nm sc).

(** [TimedGameProxy.play_turn]. *)
Definition TimedGameProxy_play_turn : M unit :=
  do now <- time_time;
  do t0 <- gets (fun s => start_time (game s));
  if Qgtb (now - t0) 60 then
    run print PTimesUp;
    run declare_winner;
    ret tt
  else Game_play_turn.

(** [self.play_turn()]: dispatch on the class of the game object. *)
Definition play_turn : M unit :=
  do c <- gets (fun s => gcls (game s));
  match c with
  | GameC => Game_play_turn
  | TimedGameProxyC => TimedGameProxy_play_turn
  end.

(** The [while not self.is_winner(): self.play_turn()] of [start_game]. *)
Definition game_loop (fuel : nat) : M unit :=
  while fuel (do w <- gets is_winner; ret (negb w))
             (run play_turn; ret Continue).

(** [Game.start_game], inherited by [TimedGameProxy].  An iteration of its
    loop takes a roll or a reading of the clock, so the bound given to the
    loop is never what stops it ([game_bound_enough]). *)
Definition start_game : M unit :=
  run print PWelcome;
  run (fun s => game_loop (S (length (rolls s) + length (clock s))) s);
  do winner <- best_player;
  do nm <- gets (fun s => name_of s winner);
  do sc <- gets (fun s => score_of s winner);
  print (PCongrats nm sc).

(** [TimedGameProxy(player1, player2)]. *)
Definition new_TimedGameProxy (player1 player2 : loc) : M unit :=
  run modify (fun s =>
        with_game (mkGame TimedGameProxyC [] 0 0 0 (start_time (game s))) s);
  run Game_init player1 player2;
  do t <- time_time;
  modify (fun s =>
    let g := game s in
    with_game (mkGame (gcls g) (players g) (die_value g) (turn_total g)
                      (current_player g) t) s).

(** [main], from the parsed arguments to the game object. *)
Definition setup (player1_type player2_type : string) (timed : bool) : M unit :=
  do player1 <- create_player player1_type "Player 1";
  do player2 <- create_player player2_type "Player 2";
  if timed then new_TimedGameProxy player1 player2
  else new_Game player1 player2.

(** [main]: [game.start_game()] on the game it has set up. *)
Definition main (player1_type player2_type : string) (timed : bool) : M unit :=
  run setup player1_type player2_type timed;
  start_game.

(** The state [main] starts in: no object yet, nothing printed. *)
Definition boot (rs : list Z) (lines : list string) (ticks : list Q) : state :=
  mkState ∅ (mkGame GameC [] 0 0 0 0%Q) rs lines ticks [].

(** How [Game.play_turn] reads a decision: [decision == 'h'] banks, and any
    other string rolls again. *)
Inductive Decision := Bank | Roll.

Definition reading (decision : string) : Decision :=
  if String.eqb decision "h" then Bank else Roll.


(** ** The turn engine as a relation

    What one iteration of the loop of [Game.play_turn] and what a whole turn
    can do, stated over the state before and the outcome: the rolls taken
    from the random stream, the store, the turn total and the active player.
    [play_turn_body_step] and [turn_loop_run] below prove that the code has
    exactly these behaviours. *)

(** The sum of a list of rolls. *)
Definition Zsum (l : list Z) : Z := foldr Z.add 0 l.

(** What no turn touches: the class of the game, its list of players, its
    start time, and the clock. *)
Definition same_table (s s' : state) : Prop :=
  gcls (game s') = gcls (game s) /\
  players (game s') = players (game s) /\
  start_time (game s') = start_time (game s) /\
  clock s' = clock s.

Inductive body_step (p : loc) (s : state) : outcome ctl -> Prop :=
| step_starved :
    rolls s = [] ->
    body_step p s (Starved s)
| step_bust s' :
    rolls s = 1 :: rolls s' ->
    heap s' = heap s ->
    turn_total (game s') = 0 ->
    current_player (game s') = 1 - current_player (game s) ->
    last (stdout s') = Some (PBust (name_of s p)) ->
    same_table s s' ->
    body_step p s (Ret Break s')
| step_bank r s' :
    rolls s = r :: rolls s' -> r ≠ 1 ->
    heap s' = credit p (turn_total (game s) + r) (heap s) ->
    turn_total (game s') = turn_total (game s) + r ->
    current_player (game s') = 1 - current_player (game s) ->
    last (stdout s') =
      Some (PTotal (name_of s p) (score_of s p + (turn_total (game s) + r))) ->
    same_table s s' ->
    body_step p s (Ret Break s')
| step_roll r s' :
    rolls s = r :: rolls s' -> r ≠ 1 ->
    heap s' = heap s ->
    turn_total (game s') = turn_total (game s) + r ->
    current_player (game s') = current_player (game s) ->
    same_table s s' ->
    body_step p s (Ret Continue s')
| step_eof r s' :
    rolls s = r :: rolls s' -> r ≠ 1 ->
    heap s' = heap s ->
    turn_total (game s') = turn_total (game s) + r ->
    current_player (game s') = current_player (game s) ->
    same_table s s' ->
    body_step p s (Raise EOFError s').

Inductive turn_run (p : loc) (s : state) : outcome unit -> Prop :=
| turn_busted pre s' :
    rolls s = pre ++ 1 :: rolls s' -> 1 ∉ pre ->
    heap s' = heap s ->
    turn_total (game s') = 0 ->
    current_player (game s') = 1 - current_player (game s) ->
    last (stdout s') = Some (PBust (name_of s p)) ->
    same_table s s' ->
    turn_run p s (Ret tt s')
| turn_banked used s' :
    rolls s = used ++ rolls s' -> used ≠ [] -> 1 ∉ used ->
    heap s' = credit p (turn_total (game s) + Zsum used) (heap s) ->
    turn_total (game s') = turn_total (game s) + Zsum used ->
    current_player (game s') = 1 - current_player (game s) ->
    last (stdout s') =
      Some (PTotal (name_of s p)
                   (score_of s p + (turn_total (game s) + Zsum used))) ->
    same_table s s' ->
    turn_run p s (Ret tt s')
| turn_eof used s' :
    rolls s = used ++ rolls s' -> 1 ∉ used ->
    heap s' = heap s ->
    turn_total (game s') = turn_total (game s) + Zsum used ->
    current_player (game s') = current_player (game s) ->
    same_table s s' ->
    turn_run p s (Raise EOFError s')
| turn_starved used s' :
    rolls s = used ++ rolls s' -> 1 ∉ used ->
    heap s' = heap s ->
    turn_total (game s') = turn_total (game s) + Zsum used ->
    current_player (game s') = current_player (game s) ->
    same_table s s' ->
    turn_run p s (Starved s').

(** ** The states of a game

    [in_game s]: [s] is a state in which the loop of [start_game] tests
    [is_winner], in a run of [main] whose random stream yields die faces:
    the state the loop is entered in, and the state after every turn it
    plays. *)
Inductive in_game : state -> Prop :=
| in_game_start t1 t2 timed rs lines ticks s :
    Forall die_face rs ->
    (run setup t1 t2 timed; print PWelcome) (boot rs lines ticks) = Ret tt s ->
    in_game s
| in_game_turn s s' :
    in_game s ->
    is_winner s = false ->
    play_turn s = Ret tt s' ->
    in_game s'.

(** What [self.play_turn()] can have done to the state, whatever its
    outcome and whatever the class of the game: it took some rolls, and
    either left the store alone or credited the active player with the sum
    of the rolls it took, none of them a 1, and passed the turn. *)
Definition turn_effect (s s' : state) : Prop :=
  gcls (game s') = gcls (game s) /\
  players (game s') = players (game s) /\
  start_time (game s') = start_time (game s) /\
  exists used,
    rolls s = used ++ rolls s' /\
    ((heap s' = heap s /\
      (current_player (game s') = current_player (game s) \/
       current_player (game s') = 1 - current_player (game s)))
     \/
     (exists p,
        active_player s = Some p /\ used ≠ [] /\ (1 ∉ used) /\
        heap s' = credit p (Zsum used) (heap s) /\
        current_player (game s') = 1 - current_player (game s))).

(** What holds of every state of a game ([in_game_inv]): the two players are
    the two objects [main] created, one of them is active, the random stream
    yields die faces, no score is negative and at most one has reached 100. *)
Definition game_inv (s : state) : Prop :=
  players (game s) = [0%nat; 1%nat] /\
  (current_player (game s) = 0 \/ current_player (game s) = 1) /\
  Forall die_face (rolls s) /\
  (forall l, 0 <= score_of s l) /\
  (score_of s 0%nat < 100 \/ score_of s 1%nat < 100).

(** [time.time() - self.start_time > 60] for the reading [now]. *)
Definition expired (s : state) (now : Q) : Prop :=
  (60 < now - start_time (game s))%Q.

(** What is printed by [n] calls of [TimedGameProxy.play_turn] past the
    limit, for the announcement [e] of [declare_winner]. *)
Definition times_up (n : nat) (e : event) : list event :=
  concat (replicate n [PTimesUp; e]).

(** ** Sample runs *)

(** The state in which [main] calls [start_game]. *)
Definition table (t1 t2 : string) (timed : bool) (rs : list Z)
    (lines : list string) (ticks : list Q) : state :=
  final (setup t1 t2 timed (boot rs lines ticks)).

(** The state in which [start_game] enters its loop. *)
Definition seated (t1 t2 : string) (timed : bool) (rs : list Z)
    (lines : list string) (ticks : list Q) : state :=
  final ((run setup t1 t2 timed; print PWelcome) (boot rs lines ticks)).

(** ** Tactics *)

(** Unfolds the methods and the monad down to the state. *)
Ltac exec :=
  unfold make_decision, Player_make_decision, ComputerPlayer_make_decision,
    declare_winner, best_player, Die_roll, input, set_turn_total,
    switch_player, add_to_score, print, randint_1_6, time_time;
  unfold bind, ret, gets, modify, raise, starve;
  cbn.

(** Closes [1 ∉ l] for a list of rolls written out. *)
Ltac no_one := rewrite ?not_elem_of_cons; repeat split; try lia;
               apply not_elem_of_nil.

(** ** The rest of the classes *)

(** [Player.reset_score]: [self.score = 0]. *)
Definition reset_score (self : loc) : M unit :=
  modify (fun s =>
    let p := heap s !!! self in
    with_heap (<[self := mkPlayer (cls p) (name p) 0]> (heap s)) s).

(** The docstring of [ComputerPlayer.make_decision]: "hold at the lesser of
    25 or 100 - current score". *)
Definition hold_at (current_score : Z) : Z := Z.min 25 (100 - current_score).

(** The two seats of a game [main] has set up: the two objects it created,
    one of them active. *)
Definition seats (s : state) : Prop :=
  players (game s) = [0%nat; 1%nat] /\
  (current_player (game s) = 0 \/ current_player (game s) = 1).

(** The class [PlayerFactory.create_player] instantiates for a type. *)
Definition class_of (player_type : string) : option PlayerClass :=
  if String.eqb player_type "computer" then Some ComputerPlayerC
  else if String.eqb player_type "human" then Some PlayerC
  else None.

(** A game of class [Game] between the two computer players [main] created,
    with a random stream that never gives a 1 and has rolls for [k] turns
    of 13 rolls to come. *)
Definition duel (s : state) (k : nat) : Prop :=
  players (game s) = [0%nat; 1%nat] /\
  gcls (game s) = GameC /\
  cls (heap s !!! 0%nat) = ComputerPlayerC /\
  cls (heap s !!! 1%nat) = ComputerPlayerC /\
  name_of s 0%nat = "Player 1"%string /\
  Forall (fun r => 2 <= r <= 6) (rolls s) /\
  (13 * k <= length (rolls s))%nat.
(** ** The store *)

Section Store.
Context (h : gmap loc Player) (p : loc) (n : Z).

Lemma credit_score : score (credit p n h !!! p) = score (h !!! p) + n.
Proof. unfold credit. by rewrite lookup_total_insert_eq. Qed.

Lemma credit_name : name (credit p n h !!! p) = name (h !!! p).
Proof. unfold credit. by rewrite lookup_total_insert_eq. Qed.

Lemma credit_cls : cls (credit p n h !!! p) = cls (h !!! p).
Proof. unfold credit. by rewrite lookup_total_insert_eq. Qed.

Lemma credit_other (l : loc) : l ≠ p -> credit p n h !!! l = h !!! l.
Proof. intros Hl. unfold credit. by rewrite lookup_total_insert_ne. Qed.
End Store.

(** ** Strings *)

Lemma lower_ascii_h (c : ascii) :
  lower_ascii c = "h"%char <-> c = "h"%char \/ c = "H"%char.
Proof.
  split.
  - destruct c as [[] [] [] [] [] [] [] []]; vm_compute; intros H;
      first [discriminate H | by left | by right].
  - by intros [-> | ->].
Qed.

Lemma lower_h (line : string) :
  lower line = "h"%string <-> line = "h"%string \/ line = "H"%string.
Proof.
  split.
  - destruct line as [|c [|c' rest]]; simpl; intros H; try discriminate H.
    injection H as H. apply lower_ascii_h in H as [-> | ->]; auto.
  - by intros [-> | ->].
Qed.

(** ** One iteration of the turn loop *)

Lemma same_table_refl (s : state) : same_table s s.
Proof. by repeat split. Qed.

Lemma same_table_trans (s1 s2 s3 : state) :
  same_table s1 s2 -> same_table s2 s3 -> same_table s1 s3.
Proof.
  intros (?&?&?&?) (?&?&?&?). repeat split; congruence.
Qed.

Lemma play_turn_body_step (p : loc) (s : state) :
  body_step p s (play_turn_body p s).
Proof.
  unfold play_turn_body. exec.
  destruct (rolls s) as [|r rest] eqn:Hr; cbn.
  - by constructor.
  - destruct (Z.eqb_spec r 1) as [-> | Hne]; cbn.
    + apply step_bust; cbn; try done. apply last_snoc.
    + destruct (cls (heap s !!! p)); cbn.
      * destruct (stdin s) as [|line ls]; cbn.
        { by eapply (step_eof _ _ r); cbn. }
        destruct (String.eqb (lower line) "h"); cbn.
        { eapply (step_bank _ _ r); cbn; try done.
          unfold name_of, score_of; cbn.
          by rewrite credit_name, credit_score, last_snoc. }
        by eapply (step_roll _ _ r); cbn.
      * match goal with
        | |- context [if ?c then _ else _] => destruct c
        end; cbn.
        { eapply (step_bank _ _ r); cbn; try done.
          unfold name_of, score_of; cbn.
          by rewrite credit_name, credit_score, last_snoc. }
        by eapply (step_roll _ _ r); cbn.
Qed.

(** ** A whole turn *)

Lemma Zsum_cons (r : Z) (l : list Z) : Zsum (r :: l) = r + Zsum l.
Proof. reflexivity. Qed.

(** A turn that rolls [r], not a 1, and goes on is a turn that goes on from
    the state after that roll. *)
Lemma turn_run_roll (p : loc) (s s1 : state) (r : Z) (o : outcome unit) :
  rolls s = r :: rolls s1 -> r ≠ 1 ->
  heap s1 = heap s ->
  turn_total (game s1) = turn_total (game s) + r ->
  current_player (game s1) = current_player (game s) ->
  same_table s s1 ->
  turn_run p s1 o -> turn_run p s o.
Proof.
  intros Hr Hne Hh Ht Hc Hs Hrun.
  assert (Hnot : forall l : list Z, 1 ∉ l -> 1 ∉ r :: l).
  { intros l Hl [?|?]%elem_of_cons; [congruence | done]. }
  assert (Hname : name_of s1 p = name_of s p).
  { unfold name_of. by rewrite Hh. }
  assert (Hscore : score_of s1 p = score_of s p).
  { unfold score_of. by rewrite Hh. }
  destruct Hrun as [pre s' Hr' ? Hh' ? Hc' Ho ?
                   | used s' Hr' ? ? Hh' Ht' Hc' Ho ?
                   | used s' Hr' ? Hh' Ht' Hc' ? | used s' Hr' ? Hh' Ht' Hc' ?].
  - apply (turn_busted _ _ (r :: pre)); eauto using same_table_trans.
    + rewrite Hr, Hr'. done.
    + congruence.
    + congruence.
    + congruence.
  - apply (turn_banked _ _ (r :: used)); eauto using same_table_trans.
    + rewrite Hr, Hr'. done.
    + rewrite Hh', Hh, Ht, Zsum_cons. f_equal. lia.
    + rewrite Ht', Ht, Zsum_cons. lia.
    + congruence.
    + rewrite Ho, Hname, Hscore, Ht, Zsum_cons. do 3 f_equal. lia.
  - apply (turn_eof _ _ (r :: used)); eauto using same_table_trans.
    + rewrite Hr, Hr'. done.
    + congruence.
    + rewrite Ht', Ht, Zsum_cons. lia.
    + congruence.
  - apply (turn_starved _ _ (r :: used)); eauto using same_table_trans.
    + rewrite Hr, Hr'. done.
    + congruence.
    + rewrite Ht', Ht, Zsum_cons. lia.
    + congruence.
Qed.

Lemma while_true_unfold (n : nat) (body : M ctl) (s : state) :
  while (S n) (ret true) body s =
  match body s with
  | Ret Break s1 => Ret tt s1
  | Ret Continue s1 => while n (ret true) body s1
  | Raise e s1 => Raise e s1
  | Starved s1 => Starved s1
  end.
Proof. cbn. unfold bind, ret. by destruct (body s) as [[] ?| |]. Qed.

Lemma turn_loop_run (p : loc) (fuel : nat) (s : state) :
  turn_run p s (while fuel (ret true) (play_turn_body p) s).
Proof.
  revert s. induction fuel as [|n IH]; intros s.
  - apply (turn_starved _ _ []); cbn; auto using same_table_refl.
    + apply not_elem_of_nil.
    + lia.
  - rewrite while_true_unfold.
    destruct (play_turn_body_step p s)
      as [Hr | s' Hr Hh Ht Hc Ho Hs | r s' Hr Hne Hh Ht Hc Ho Hs
          | r s' Hr Hne Hh Ht Hc Hs | r s' Hr Hne Hh Ht Hc Hs].
    + apply (turn_starved _ _ []); cbn; auto using same_table_refl.
      * apply not_elem_of_nil.
      * lia.
    + apply (turn_busted _ _ []); auto. apply not_elem_of_nil.
    + apply (turn_banked _ _ [r]); auto.
      * rewrite not_elem_of_cons. split; [congruence | apply not_elem_of_nil].
      * rewrite Hh. cbn. do 2 f_equal. lia.
      * rewrite Ht. cbn. lia.
      * rewrite Ho. cbn. do 3 f_equal. lia.
    + eapply turn_run_roll; eauto.
    + apply (turn_eof _ _ [r]); auto.
      * rewrite not_elem_of_cons. split; [congruence | apply not_elem_of_nil].
      * rewrite Ht. cbn. lia.
Qed.

(** ** [Game.play_turn] *)

(** The state [Game.play_turn] enters its loop in. *)
Lemma Game_play_turn_run (s : state) (p : loc) :
  active_player s = Some p ->
  turn_run p (with_game (with_turn_total 0 (game s)) s) (Game_play_turn s).
Proof.
  intros Hp. unfold Game_play_turn, bind, gets, set_turn_total, modify.
  rewrite Hp. apply turn_loop_run.
Qed.

Lemma Game_play_turn_index (s : state) :
  active_player s = None ->
  Game_play_turn s = Raise IndexError s.
Proof. intros Hp. unfold Game_play_turn, bind, gets. by rewrite Hp. Qed.

(** What a turn that returned did, by whether it rolled a 1. *)
Lemma Game_play_turn_ret (s s' : state) :
  Game_play_turn s = Ret tt s' ->
  exists p used,
    active_player s = Some p /\
    rolls s = used ++ rolls s' /\
    current_player (game s') = 1 - current_player (game s) /\
    same_table s s' /\
    ((exists pre, used = pre ++ [1] /\ (1 ∉ pre) /\
        heap s' = heap s /\ turn_total (game s') = 0 /\
        last (stdout s') = Some (PBust (name_of s p)))
     \/
     (used ≠ [] /\ (1 ∉ used) /\
        heap s' = credit p (Zsum used) (heap s) /\
        turn_total (game s') = Zsum used /\
        last (stdout s') =
          Some (PTotal (name_of s p) (score_of s p + Zsum used)))).
Proof.
  intros Hret.
  destruct (active_player s) as [p|] eqn:Hp.
  2: { rewrite Game_play_turn_index in Hret by done. discriminate. }
  exists p. pose proof (Game_play_turn_run s p Hp) as Hrun.
  rewrite Hret in Hrun.
  inversion Hrun as [pre s1 Hr Hpre Hh Ht Hc Ho Hs
                    | used s1 Hr Hne Hused Hh Ht Hc Ho Hs | |];
    subst; cbn in *.
  - exists (pre ++ [1]). rewrite <- app_assoc.
    do 4 (split; [done |]). left. by exists pre.
  - exists used. do 4 (split; [done |]). right.
    rewrite Hh, Ht, Ho. by rewrite !Z.add_0_l.
Qed.

Lemma Game_play_turn_effect (s : state) :
  turn_effect s (final (Game_play_turn s)) /\
  clock (final (Game_play_turn s)) = clock s.
Proof.
  destruct (active_player s) as [p|] eqn:Hp.
  2: { rewrite Game_play_turn_index by done. cbn.
       split; [|done]. do 3 (split; [done |]). exists []. split; [done |].
       left. auto. }
  pose proof (Game_play_turn_run s p Hp) as Hrun.
  destruct Hrun as [pre s' Hr Hpre Hh Ht Hc Ho (?&?&?&?)
                   | used s' Hr Hne Hused Hh Ht Hc Ho (?&?&?&?)
                   | used s' Hr Hused Hh Ht Hc (?&?&?&?)
                   | used s' Hr Hused Hh Ht Hc (?&?&?&?)];
    cbn in *; (split; [|done]); do 3 (split; [done |]).
  - exists (pre ++ [1]). rewrite <- app_assoc. split; [done |]. left. auto.
  - exists used. split; [done |]. right. exists p.
    rewrite Z.add_0_l in Hh. auto.
  - exists used. split; [done |]. left. auto.
  - exists used. split; [done |]. left. auto.
Qed.

(** ** [TimedGameProxy.play_turn] *)

Lemma best_player_unfold (s : state) :
  best_player s =
  match py_max (score_of s) (players (game s)) with
  | None => Raise ValueError s
  | Some winner => Ret winner s
  end.
Proof.
  unfold best_player, bind, gets, raise, ret.
  by destruct (py_max (score_of s) (players (game s))).
Qed.

Lemma declare_winner_unfold (s : state) :
  declare_winner s =
  match py_max (score_of s) (players (game s)) with
  | None => Raise ValueError s
  | Some winner =>
      Ret tt (with_stdout
                (stdout s ++ [PTimeWinner (name_of s winner) (score_of s winner)])
                s)
  end.
Proof.
  unfold declare_winner, bind. rewrite best_player_unfold.
  by destruct (py_max (score_of s) (players (game s))).
Qed.

(** The clock is read once; past the limit the turn is not played. *)
Lemma TimedGameProxy_play_turn_unfold (s : state) :
  TimedGameProxy_play_turn s =
  match clock s with
  | [] => Starved s
  | now :: rest =>
      let s1 := with_clock rest s in
      if Qgtb (now - start_time (game s)) 60 then
        match declare_winner (with_stdout (stdout s1 ++ [PTimesUp]) s1) with
        | Ret _ s2 => Ret tt s2
        | Raise e s2 => Raise e s2
        | Starved s2 => Starved s2
        end
      else Game_play_turn s1
  end.
Proof.
  unfold TimedGameProxy_play_turn, bind, time_time, gets.
  destruct (clock s) as [|now rest]; [done |]. cbn.
  by destruct (Qgtb (now - start_time (game s)) 60).
Qed.

Lemma play_turn_effect (s : state) : turn_effect s (final (play_turn s)).
Proof.
  unfold play_turn, bind, gets.
  destruct (gcls (game s)) eqn:Hcls.
  { apply Game_play_turn_effect. }
  rewrite TimedGameProxy_play_turn_unfold.
  assert (Hsame : forall s', heap s' = heap s -> game s' = game s ->
                             rolls s' = rolls s -> turn_effect s s').
  { intros s' Hh Hg Hr. unfold turn_effect. rewrite Hg, Hh, Hr.
    do 3 (split; [done |]). exists []. split; [done |]. left. auto. }
  destruct (clock s) as [|now rest]; cbn.
  { by apply Hsame. }
  destruct (Qgtb (now - start_time (game s)) 60).
  - rewrite declare_winner_unfold. cbn.
    destruct (py_max _ _); cbn; by apply Hsame.
  - pose proof (Game_play_turn_effect (with_clock rest s)) as [H _].
    exact H.
Qed.

(** ** The loop of [start_game] *)

Lemma game_loop_unfold (n : nat) (s : state) :
  game_loop (S n) s =
  if is_winner s then Ret tt s
  else match play_turn s with
       | Ret _ s1 => game_loop n s1
       | Raise e s1 => Raise e s1
       | Starved s1 => Starved s1
       end.
Proof.
  unfold game_loop. cbn [while]. unfold bind, gets, ret.
  destruct (is_winner s); cbn [negb]; [done |].
  by destruct (play_turn s).
Qed.

(** A property of the state that every turn keeps, whatever its outcome, is
    kept by the loop, whatever its outcome. *)
Lemma game_loop_inv (I : state -> Prop) :
  (forall s, I s -> is_winner s = false -> I (final (play_turn s))) ->
  forall fuel s, I s -> I (final (game_loop fuel s)).
Proof.
  intros Hstep fuel. induction fuel as [|n IH]; intros s Hs; [done |].
  rewrite game_loop_unfold.
  destruct (is_winner s) eqn:Hw; [done |].
  specialize (Hstep s Hs Hw).
  destruct (play_turn s) as [[] s1 | e s1 | s1]; cbn in *; auto.
Qed.

(** The loop is left with a winner. *)
Lemma game_loop_exit (fuel : nat) (s s' : state) :
  game_loop fuel s = Ret tt s' -> is_winner s' = true.
Proof.
  revert s. induction fuel as [|n IH]; intros s; [done |].
  rewrite game_loop_unfold.
  destruct (is_winner s) eqn:Hw.
  - by intros [= <-].
  - destruct (play_turn s) as [[] s1 | e s1 | s1]; [apply IH | done | done].
Qed.

Lemma game_loop_in_game (fuel : nat) (s s' : state) :
  in_game s -> game_loop fuel s = Ret tt s' -> in_game s'.
Proof.
  revert s. induction fuel as [|n IH]; intros s Hs; [done |].
  rewrite game_loop_unfold.
  destruct (is_winner s) eqn:Hw.
  - by intros [= <-].
  - destruct (play_turn s) as [[] s1 | e s1 | s1] eqn:Hturn; [| done | done].
    apply IH. by eapply in_game_turn.
Qed.

Lemma start_game_unfold (s : state) :
  start_game s =
  let s0 := with_stdout (stdout s ++ [PWelcome]) s in
  match game_loop (S (length (rolls s0) + length (clock s0))) s0 with
  | Ret _ s1 =>
      match py_max (score_of s1) (players (game s1)) with
      | None => Raise ValueError s1
      | Some winner =>
          Ret tt (with_stdout
                    (stdout s1 ++
                     [PCongrats (name_of s1 winner) (score_of s1 winner)])
                    s1)
      end
  | Raise e s1 => Raise e s1
  | Starved s1 => Starved s1
  end.
Proof.
  unfold start_game. unfold bind at 1. unfold print at 1, modify at 1.
  unfold bind at 1. cbv zeta.
  destruct (game_loop _ _) as [[] s1 | e s1 | s1]; [| done | done].
  unfold bind at 1. rewrite best_player_unfold.
  by destruct (py_max _ _).
Qed.

(** ** [is_winner] and [max] *)

Lemma is_winner_true (s : state) :
  is_winner s = true <->
  Exists (fun player => 100 <= score_of s player) (players (game s)).
Proof.
  unfold is_winner, py_any. rewrite existsb_exists, Exists_exists.
  split; intros (l & Hl & Hs); exists l; (split; [by apply list_elem_of_In |]);
    lia.
Qed.

Lemma is_winner_false (s : state) :
  is_winner s = false <->
  Forall (fun player => score_of s player < 100) (players (game s)).
Proof.
  rewrite <- not_true_iff_false, is_winner_true, <- Forall_Exists_neg.
  apply Forall_iff. intros l. lia.
Qed.

(** [max] over two players: the second only if it is strictly ahead. *)
Lemma py_max_two (key : loc -> Z) (a b : loc) :
  py_max key [a; b] = Some (if key a <? key b then b else a).
Proof. reflexivity. Qed.

(** ** The state [main] sets up *)

Lemma new_player_first (c : PlayerClass) (nm : string) (s : state) :
  heap s = ∅ ->
  new_player c nm s =
  Ret 0%nat (with_heap (<[0%nat := mkPlayer c nm 0]> ∅) s).
Proof. intros Hh. unfold new_player. rewrite Hh. reflexivity. Qed.

Lemma new_player_second (c : PlayerClass) (nm : string) (p : Player)
    (s : state) :
  heap s = <[0%nat := p]> ∅ ->
  new_player c nm s =
  Ret 1%nat (with_heap (<[1%nat := mkPlayer c nm 0]> (<[0%nat := p]> ∅)) s).
Proof. intros Hh. unfold new_player. rewrite Hh. reflexivity. Qed.

Lemma setup_ret (t1 t2 : string) (timed : bool) (rs : list Z)
    (lines : list string) (ticks : list Q) (s : state) :
  setup t1 t2 timed (boot rs lines ticks) = Ret tt s ->
  exists c1 c2,
    heap s = <[1%nat := mkPlayer c2 "Player 2" 0]>
               (<[0%nat := mkPlayer c1 "Player 1" 0]> ∅) /\
    players (game s) = [0%nat; 1%nat] /\
    current_player (game s) = 0 /\
    turn_total (game s) = 0 /\
    gcls (game s) = (if timed then TimedGameProxyC else GameC) /\
    rolls s = rs /\ stdin s = lines /\ stdout s = [].
Proof.
  unfold setup, create_player.
  assert (Hnew : forall c1 c2,
    (do player1 <- new_player c1 "Player 1";
     do player2 <- new_player c2 "Player 2";
     if timed then new_TimedGameProxy player1 player2
     else new_Game player1 player2) (boot rs lines ticks) = Ret tt s ->
    exists c1 c2,
    heap s = <[1%nat := mkPlayer c2 "Player 2" 0]>
               (<[0%nat := mkPlayer c1 "Player 1" 0]> ∅) /\
    players (game s) = [0%nat; 1%nat] /\
    current_player (game s) = 0 /\
    turn_total (game s) = 0 /\
    gcls (game s) = (if timed then TimedGameProxyC else GameC) /\
    rolls s = rs /\ stdin s = lines /\ stdout s = []).
  { intros c1 c2. unfold bind at 1.
    rewrite new_player_first by done. unfold bind at 1.
    erewrite new_player_second by done.
    destruct timed.
    - unfold new_TimedGameProxy, Game_init, bind, modify, time_time. cbn.
      destruct ticks as [|t ticks']; [done |].
      intros [= <-]. exists c1, c2. by cbn.
    - unfold new_Game, Game_init, bind, modify. cbn.
      intros [= <-]. exists c1, c2. by cbn. }
  destruct (String.eqb t1 "computer"), (String.eqb t1 "human"),
    (String.eqb t2 "computer"), (String.eqb t2 "human");
    try apply Hnew; try (unfold bind, raise, new_player; done).
Qed.

(** ** Invariants of a game *)

Lemma py_getitem_elem {A} (l : list A) (i : Z) (x : A) :
  py_getitem l i = Some x -> x ∈ l.
Proof.
  unfold py_getitem.
  destruct (_ && _); [by apply list_elem_of_lookup_2 |].
  destruct (_ && _); [by apply list_elem_of_lookup_2 | done].
Qed.

Lemma Zsum_die_faces (l : list Z) : Forall die_face l -> 0 <= Zsum l.
Proof.
  induction 1 as [|r l Hr _ IH]; [done |].
  rewrite Zsum_cons. unfold die_face in Hr. lia.
Qed.

(** Scores never go down over a turn. *)
Lemma turn_effect_mono (s s' : state) :
  Forall die_face (rolls s) -> turn_effect s s' ->
  Forall die_face (rolls s') /\ forall l, score_of s l <= score_of s' l.
Proof.
  intros Hfaces (_ & _ & _ & used & Hr & Heff).
  rewrite Hr in Hfaces. apply Forall_app in Hfaces as [Hused Hrest].
  split; [done |]. intros l. unfold score_of.
  destruct Heff as [[-> _] | (p & _ & _ & _ & -> & _)]; [done |].
  destruct (decide (l = p)) as [-> | Hne].
  - rewrite credit_score. pose proof (Zsum_die_faces used Hused). lia.
  - by rewrite credit_other.
Qed.

Lemma turn_effect_inv (s s' : state) :
  game_inv s -> is_winner s = false -> turn_effect s s' -> game_inv s'.
Proof.
  intros (Hpl & Hcp & Hfaces & Hpos & _) Hw Heff.
  destruct (turn_effect_mono s s' Hfaces Heff) as [Hfaces' Hmono].
  apply is_winner_false in Hw. rewrite Hpl in Hw.
  apply Forall_cons in Hw as [Hw0 Hw1]. apply Forall_cons in Hw1 as [Hw1 _].
  destruct Heff as (_ & Hpl' & _ & used & Hr & Heff).
  split; [congruence |]. split.
  { destruct Heff as [[_ Hc] | (p & _ & _ & _ & _ & Hc)]; lia. }
  split; [done |]. split.
  { intros l. specialize (Hpos l). specialize (Hmono l). lia. }
  unfold score_of in *.
  destruct Heff as [[-> _] | (p & Hp & _ & _ & -> & _)]; [lia |].
  destruct (decide (p = 0%nat)) as [-> | Hne].
  - right. by rewrite credit_other.
  - left. by rewrite credit_other.
Qed.

Lemma in_game_inv (s : state) : in_game s -> game_inv s.
Proof.
  induction 1 as [t1 t2 timed rs lines ticks s Hfaces Hs | s s' _ IH Hw Hturn].
  - unfold bind in Hs.
    destruct (setup t1 t2 timed (boot rs lines ticks)) as [[] s0 | |] eqn:Hset;
      try discriminate Hs.
    apply setup_ret in Hset
      as (c1 & c2 & Hh & Hpl & Hcp & _ & _ & Hr & _ & _).
    injection Hs as <-. unfold game_inv, score_of. cbn. rewrite Hh, Hpl, Hr.
    split; [done |]. split; [by left |]. split; [done |]. split.
    + intros l.
      destruct (decide (l = 1%nat)) as [-> | H1];
        [by rewrite lookup_total_insert_eq |].
      rewrite lookup_total_insert_ne by done.
      destruct (decide (l = 0%nat)) as [-> | H0];
        [by rewrite lookup_total_insert_eq |].
      rewrite lookup_total_insert_ne by done.
      by rewrite lookup_total_empty.
    + left. rewrite lookup_total_insert_ne by done.
      by rewrite lookup_total_insert_eq.
  - apply (turn_effect_inv s s' IH Hw).
    pose proof (play_turn_effect s) as Heff. by rewrite Hturn in Heff.
Qed.

(** ** The bounds of the loops *)

Lemma turn_bound_any (p : loc) (n m : nat) (s : state) :
  (length (rolls s) < n)%nat -> (length (rolls s) < m)%nat ->
  while n (ret true) (play_turn_body p) s =
  while m (ret true) (play_turn_body p) s.
Proof.
  revert m s. induction n as [|n IH]; intros m s Hn Hm; [lia |].
  destruct m as [|m]; [lia |].
  rewrite !while_true_unfold.
  destruct (play_turn_body_step p s)
    as [Hr | s' Hr Hh Ht Hc Ho Hs | r s' Hr Hne Hh Ht Hc Ho Hs
        | r s' Hr Hne Hh Ht Hc Hs | r s' Hr Hne Hh Ht Hc Hs]; try done.
  rewrite Hr in Hn, Hm. cbn in Hn, Hm. apply IH; lia.
Qed.

(** More fuel than [Game.play_turn] gives its loop changes nothing: the loop
    stops on the random stream. *)
Lemma turn_bound_enough (p : loc) (fuel : nat) (s : state) :
  (length (rolls s) < fuel)%nat ->
  while fuel (ret true) (play_turn_body p) s =
  while (S (length (rolls s))) (ret true) (play_turn_body p) s.
Proof. intros Hf. apply turn_bound_any; lia. Qed.

(** What is left of the random stream and of the clock. *)
Lemma play_turn_takes (s s' : state) :
  play_turn s = Ret tt s' ->
  (length (rolls s') + length (clock s') <
   length (rolls s) + length (clock s))%nat.
Proof.
  assert (Hgame : forall s0 s1, Game_play_turn s0 = Ret tt s1 ->
            (length (rolls s1) < length (rolls s0))%nat /\
            clock s1 = clock s0).
  { intros s0 s1 Hret.
    apply Game_play_turn_ret in Hret
      as (p & used & _ & Hr & _ & (_ & _ & _ & Hck) & Hcase).
    split; [| done]. rewrite Hr, length_app.
    destruct Hcase as [(pre & -> & _) | (Hne & _)].
    - rewrite length_app. cbn. lia.
    - destruct used; [done | cbn; lia]. }
  unfold play_turn, bind, gets. destruct (gcls (game s)).
  - intros [Hr Hc]%Hgame. rewrite Hc. lia.
  - rewrite TimedGameProxy_play_turn_unfold.
    destruct (clock s) as [|now rest]; [done |]. cbn.
    destruct (Qgtb _ _).
    + rewrite declare_winner_unfold. cbn.
      destruct (py_max _ _); [| done]. intros [= <-]. cbn. lia.
    + intros [Hr Hc]%Hgame. cbn in *. rewrite Hc. lia.
Qed.

Lemma game_bound_any (n m : nat) (s : state) :
  (length (rolls s) + length (clock s) < n)%nat ->
  (length (rolls s) + length (clock s) < m)%nat ->
  game_loop n s = game_loop m s.
Proof.
  revert m s. induction n as [|n IH]; intros m s Hn Hm; [lia |].
  destruct m as [|m]; [lia |].
  rewrite !game_loop_unfold. destruct (is_winner s); [done |].
  destruct (play_turn s) as [[] s' | |] eqn:Hturn; try done.
  apply play_turn_takes in Hturn. apply IH; lia.
Qed.

(** More fuel than [start_game] gives its loop changes nothing: the loop
    stops on the random stream or on the clock. *)
Lemma game_bound_enough (fuel : nat) (s : state) :
  (length (rolls s) + length (clock s) < fuel)%nat ->
  game_loop fuel s = game_loop (S (length (rolls s) + length (clock s))) s.
Proof. intros Hf. apply game_bound_any; lia. Qed.

(** * The claims *)

(** ** The automated decision policy *)

(** C3. For every banked score and turn total, [ComputerPlayer.make_decision]
    returns without touching the state, and what it returns is read as Bank
    by the turn engine exactly when [turn_total + current_score >= 100] or
    [turn_total >= min(25, 100 - current_score)], and as another roll
    otherwise; so it never asks for another roll once the sum has reached
    100, and from a banked score of 0 it rolls again at 24 and banks at 25. *)
Theorem computer_policy (self : loc) (current_score turn_total : Z)
    (s : state) :
  (exists d,
     ComputerPlayer_make_decision self current_score turn_total s = Ret d s /\
     (reading d = Bank <->
        turn_total + current_score >= 100 \/
        turn_total >= Z.min 25 (100 - current_score)) /\
     (reading d = Roll <->
        ~ (turn_total + current_score >= 100 \/
           turn_total >= Z.min 25 (100 - current_score))) /\
     (turn_total + current_score >= 100 -> reading d ≠ Roll)) /\
  ComputerPlayer_make_decision self 0 24 s = Ret "r"%string s /\
  ComputerPlayer_make_decision self 0 25 s = Ret "h"%string s /\
  ComputerPlayer_make_decision self 80 20 s = Ret "h"%string s.
Proof.
  split; [| by repeat split].
  unfold ComputerPlayer_make_decision.
  destruct (Z.geb_spec (turn_total + current_score) 100) as [H1 | H1];
    cbn [orb].
  - exists "h"%string. split; [done |]. cbn. repeat split; try done; lia.
  - destruct (Z.geb_spec turn_total (Z.min 25 (100 - current_score)))
      as [H2 | H2].
    + exists "h"%string. split; [done |]. cbn. repeat split; try done; lia.
    + exists "r"%string. split; [done |]. cbn. repeat split; try done; lia.
Qed.

(** ** The win condition *)

(** C7. For a game of two players, [is_winner] is true exactly when at least
    one of the two scores is 100 or more, and false exactly when both are
    below 100. *)
Theorem is_winner_two_players (s : state) (a b : loc) :
  players (game s) = [a; b] ->
  (is_winner s = true <-> 100 <= score_of s a \/ 100 <= score_of s b) /\
  (is_winner s = false <-> score_of s a < 100 /\ score_of s b < 100).
Proof.
  intros Hpl. rewrite is_winner_true, is_winner_false, Hpl.
  rewrite Exists_cons, Exists_cons, Exists_nil.
  rewrite Forall_cons, Forall_cons, Forall_nil.
  tauto.
Qed.

Lemma is_winner_two_players_witness :
  let s := final (main "computer" "computer" false (boot (repeat 6 40) [] [])) in
  players (game s) = [0%nat; 1%nat] /\
  (is_winner s = true <-> 100 <= score_of s 0%nat \/ 100 <= score_of s 1%nat) /\
  (is_winner s = false <-> score_of s 0%nat < 100 /\ score_of s 1%nat < 100).
Proof.
  cbv zeta. split; [vm_compute; reflexivity |].
  apply is_winner_two_players. vm_compute. reflexivity.
Defined.

(** ** The interactive decision policy *)

(** C2, as the code has it. When a player of class [Player] has rolled
    anything but a 1 and a line is typed at the prompt, the iteration always
    returns (no error is raised); it banks (the turn total, with this roll,
    is added to the player's score and the loop is left) exactly when the
    line is [h] or [H], that is, when its lower case is the string the
    prompt asks for; on every other line, the word [hold] among them, it
    goes on to another roll with the store untouched. *)
Theorem human_banks_on_h (p : loc) (s : state) (r : Z) (rest : list Z)
    (line : string) (lines : list string) :
  cls (heap s !!! p) = PlayerC ->
  rolls s = r :: rest -> r ≠ 1 ->
  stdin s = line :: lines ->
  (exists c s', play_turn_body p s = Ret c s') /\
  ((line = "h"%string \/ line = "H"%string) <->
   exists s', play_turn_body p s = Ret Break s' /\
              heap s' = credit p (turn_total (game s) + r) (heap s) /\
              score_of s' p = score_of s p + (turn_total (game s) + r)) /\
  ((line ≠ "h"%string /\ line ≠ "H"%string) <->
   exists s', play_turn_body p s = Ret Continue s' /\
              heap s' = heap s /\
              turn_total (game s') = turn_total (game s) + r /\
              rolls s' = rest).
Proof.
  intros Hcls Hr Hne Hin.
  unfold play_turn_body. exec. rewrite Hr. cbn.
  destruct (Z.eqb_spec r 1) as [| _]; [done |]. cbn.
  rewrite Hcls. cbn. rewrite Hin. cbn.
  destruct (String.eqb_spec (lower line) "h") as [Hh | Hh]; cbn.
  - apply lower_h in Hh. split; [eauto |]. split.
    + split; [intros _ | done]. eexists. split; [done |]. cbn.
      split; [done |]. unfold score_of. cbn. by rewrite credit_score.
    + split; [intros [? ?]; destruct Hh; done |].
      by intros (? & [=] & _).
  - rewrite lower_h in Hh. split; [eauto |]. split.
    + split; [done |]. by intros (? & [=] & _).
    + split; [intros _ | tauto]. eexists. by split.
Qed.

Lemma human_banks_on_h_witness :
  let s := table "human" "human" false [4; 1] ["H"%string] [] in
  (exists c s', play_turn_body 0%nat s = Ret c s') /\
  (("H"%string = "h"%string \/ "H"%string = "H"%string) <->
   exists s', play_turn_body 0%nat s = Ret Break s' /\
              heap s' = credit 0%nat (turn_total (game s) + 4) (heap s) /\
              score_of s' 0%nat = score_of s 0%nat + (turn_total (game s) + 4)) /\
  (("H"%string ≠ "h"%string /\ "H"%string ≠ "H"%string) <->
   exists s', play_turn_body 0%nat s = Ret Continue s' /\
              heap s' = heap s /\
              turn_total (game s') = turn_total (game s) + 4 /\
              rolls s' = [1]).
Proof.
  cbv zeta.
  apply (human_banks_on_h 0%nat _ 4 [1] "H"%string []);
    [vm_compute; reflexivity | vm_compute; reflexivity | lia
    | vm_compute; reflexivity].
Defined.

(** C2, as stated, fails. The word [hold] matches itself whatever the case,
    yet typed after a roll of 4 it does not bank: the iteration goes on, the
    score stays at 0, and the turn it belongs to ends on the next roll, a 1,
    with nothing banked. The letter [h], which does not match [hold], banks
    the 4. *)
Lemma typed_hold_rolls_again :
  let s := table "human" "human" false [4; 1] ["hold"%string] [] in
  let s_h := table "human" "human" false [4; 1] ["h"%string] [] in
  lower "hold" = "hold"%string /\
  (exists s', play_turn_body 0%nat s = Ret Continue s' /\
              score_of s' 0%nat = 0 /\ turn_total (game s') = 4) /\
  ~ (exists s', play_turn_body 0%nat s = Ret Break s') /\
  (exists s', Game_play_turn s = Ret tt s' /\
              score_of s' 0%nat = 0 /\ turn_total (game s') = 0 /\
              last (stdout s') = Some (PBust "Player 1")) /\
  (exists s', Game_play_turn s_h = Ret tt s' /\ score_of s' 0%nat = 4).
Proof.
  cbv zeta. split; [reflexivity |]. split.
  { eexists. split; [vm_compute; reflexivity |]. by vm_compute. }
  split.
  { intros [s' Hs']. vm_compute in Hs'. discriminate Hs'. }
  split.
  { eexists. split; [vm_compute; reflexivity |]. by vm_compute. }
  eexists. split; [vm_compute; reflexivity |]. by vm_compute.
Qed.

(** ** The turn engine *)

(** C4. A turn that returns without having rolled a 1 ended in Bank; over
    such a turn, the score of the active player grows by the turn total,
    the turn total is the sum of the rolls taken since the turn began (none
    of them a 1), every other player object is as it was, and the last thing
    printed is the new total of the active player. *)
Theorem bank_adds_turn_total (s s' : state) (p : loc) (used : list Z) :
  active_player s = Some p ->
  Game_play_turn s = Ret tt s' ->
  rolls s = used ++ rolls s' ->
  1 ∉ used ->
  score_of s' p = score_of s p + turn_total (game s') /\
  turn_total (game s') = Zsum used /\
  (forall l, l ≠ p -> heap s' !!! l = heap s !!! l) /\
  last (stdout s') = Some (PTotal (name_of s p) (score_of s' p)).
Proof.
  intros Hp Hret Hr Hused.
  apply Game_play_turn_ret in Hret
    as (p' & used' & Hp' & Hr' & _ & _ & Hcase).
  assert (p' = p) as -> by congruence.
  assert (used' = used) as ->.
  { rewrite Hr in Hr'. by apply app_inv_tail in Hr'. }
  destruct Hcase as [(pre & -> & _) | (_ & _ & Hh & Ht & Ho)].
  { exfalso. apply Hused. apply elem_of_app. right. by apply list_elem_of_here. }
  unfold score_of in *. rewrite Hh, Ht, Ho, credit_score.
  repeat split; try done. intros l Hl. by apply credit_other.
Qed.

Lemma bank_adds_turn_total_witness :
  let s := table "computer" "computer" false [6; 5; 6; 4; 6; 3] [] [] in
  let s' := final (Game_play_turn s) in
  score_of s' 0%nat = score_of s 0%nat + turn_total (game s') /\
  turn_total (game s') = Zsum [6; 5; 6; 4; 6] /\
  (forall l, l ≠ 0%nat -> heap s' !!! l = heap s !!! l) /\
  last (stdout s') = Some (PTotal (name_of s 0%nat) (score_of s' 0%nat)).
Proof.
  cbv zeta.
  apply (bank_adds_turn_total _ _ 0%nat [6; 5; 6; 4; 6]);
    [vm_compute; reflexivity | vm_compute; reflexivity
    | vm_compute; reflexivity | no_one].
Defined.

(** C5. A turn in which the die shows 1 has returned: the 1 is the last roll
    it took (the turn ends at once), the turn total is 0 afterwards, and the
    store is as it was before the turn, so the score of every player is
    unchanged and the points of the turn are lost; the last thing printed
    reports the 1. *)
Theorem bust_discards_turn (s : state) (used : list Z) :
  rolls s = used ++ rolls (final (Game_play_turn s)) ->
  1 ∈ used ->
  exists s' p pre,
    Game_play_turn s = Ret tt s' /\
    active_player s = Some p /\
    used = pre ++ [1] /\ (1 ∉ pre) /\
    turn_total (game s') = 0 /\
    heap s' = heap s /\
    (forall l, score_of s' l = score_of s l) /\
    last (stdout s') = Some (PBust (name_of s p)).
Proof.
  intros Hr Hone.
  destruct (active_player s) as [p|] eqn:Hp.
  2: { rewrite Game_play_turn_index in Hr by done. cbn in Hr.
       destruct used as [|r used]; [by apply elem_of_nil in Hone |].
       apply (f_equal length) in Hr. rewrite length_app in Hr. cbn in Hr.
       lia. }
  pose proof (Game_play_turn_run s p Hp) as Hrun.
  assert (Hcut : forall used' (s1 : state),
            rolls s = used' ++ rolls s1 ->
            rolls s = used ++ rolls s1 -> 1 ∉ used' -> False).
  { intros used' s1 H1 H2 Hno. rewrite H2 in H1.
    apply app_inv_tail in H1 as ->. done. }
  destruct Hrun as [pre s' Hr' Hpre Hh Ht Hc Ho _
                   | used' s' Hr' _ Hused Hh Ht Hc Ho _
                   | used' s' Hr' Hused Hh Ht Hc _
                   | used' s' Hr' Hused Hh Ht Hc _];
    cbn in Hr, Hr'; try (exfalso; by eapply Hcut).
  exists s', p, pre. cbn [final] in Hr.
  assert (used = pre ++ [1]) as ->.
  { rewrite Hr' in Hr.
    change (pre ++ 1 :: rolls s') with (pre ++ [1] ++ rolls s') in Hr.
    rewrite app_assoc in Hr. by apply app_inv_tail in Hr. }
  cbn in *. repeat split; try done.
  intros l. unfold score_of. by rewrite Hh.
Qed.

Lemma bust_discards_turn_witness :
  let s := table "computer" "computer" false [6; 5; 1; 4] [] [] in
  exists s' p pre,
    Game_play_turn s = Ret tt s' /\
    active_player s = Some p /\
    [6; 5; 1] = pre ++ [1] /\ (1 ∉ pre) /\
    turn_total (game s') = 0 /\
    heap s' = heap s /\
    (forall l, score_of s' l = score_of s l) /\
    last (stdout s') = Some (PBust (name_of s p)).
Proof.
  cbv zeta.
  apply (bust_discards_turn _ [6; 5; 1]).
  - vm_compute. reflexivity.
  - apply list_elem_of_In. cbn. auto.
Defined.

(** ** The active player *)

(** A call of [self.play_turn()] that returns either played a turn of
    [Game.play_turn], or found the time up and left everything but the clock
    and the output as it was. *)
Lemma play_turn_ret (s s' : state) :
  play_turn s = Ret tt s' ->
  (exists s1, Game_play_turn s1 = Ret tt s' /\
              heap s1 = heap s /\ game s1 = game s /\ rolls s1 = rolls s /\
              (gcls (game s) = GameC -> s1 = s))
  \/
  (gcls (game s) = TimedGameProxyC /\
   heap s' = heap s /\ game s' = game s /\ rolls s' = rolls s).
Proof.
  unfold play_turn, bind, gets. destruct (gcls (game s)) eqn:Hcls.
  { intros Hret. left. by exists s. }
  rewrite TimedGameProxy_play_turn_unfold.
  destruct (clock s) as [|now rest]; [done |]. cbn.
  destruct (Qgtb _ _).
  - rewrite declare_winner_unfold. cbn.
    destruct (py_max _ _); [| done]. intros [= <-]. by right.
  - intros Hret. left. exists (with_clock rest s). by repeat split.
Qed.

Lemma Game_play_turn_switches (s s' : state) :
  Game_play_turn s = Ret tt s' ->
  current_player (game s') = 1 - current_player (game s).
Proof. by intros (p & used & _ & _ & Hc & _)%Game_play_turn_ret. Qed.

Lemma Game_play_turn_rolls (s s' : state) :
  Game_play_turn s = Ret tt s' -> rolls s' ≠ rolls s.
Proof.
  intros (p & used & _ & Hr & _ & _ & Hcase)%Game_play_turn_ret Heq.
  apply (f_equal length) in Hr. rewrite Heq, length_app in Hr.
  destruct Hcase as [(pre & -> & _) | (Hne & _)].
  - rewrite length_app in Hr. cbn in Hr. lia.
  - destruct used; [done | cbn in Hr; lia].
Qed.

(** C8. In every state of a game the index of the active player is 0 or 1,
    and it still is after [self.play_turn()] returns; whenever a turn was
    played (the call took a roll; in a game of class [Game], always), the
    index after it is 1 minus the index before it. *)
Theorem active_index_alternates (s s' : state) :
  in_game s ->
  play_turn s = Ret tt s' ->
  (current_player (game s) = 0 \/ current_player (game s) = 1) /\
  (current_player (game s') = 0 \/ current_player (game s') = 1) /\
  (rolls s' ≠ rolls s ->
   current_player (game s') = 1 - current_player (game s)) /\
  (gcls (game s) = GameC ->
   current_player (game s') = 1 - current_player (game s)).
Proof.
  intros Hs Hret.
  destruct (in_game_inv s Hs) as (_ & Hcp & _).
  split; [done |].
  destruct (play_turn_ret s s' Hret)
    as [(s1 & Hturn & _ & Hg & _ & _) | (Hcls & _ & Hg & Hr)].
  - apply Game_play_turn_switches in Hturn. rewrite Hg in Hturn.
    repeat split; try done. lia.
  - rewrite Hg. repeat split; try done. congruence.
Qed.

Lemma active_index_alternates_witness :
  let s := seated "computer" "computer" false [6; 5; 6; 4; 6; 3] [] [] in
  let s' := final (play_turn s) in
  (current_player (game s) = 0 \/ current_player (game s) = 1) /\
  (current_player (game s') = 0 \/ current_player (game s') = 1) /\
  (rolls s' ≠ rolls s ->
   current_player (game s') = 1 - current_player (game s)) /\
  (gcls (game s) = GameC ->
   current_player (game s') = 1 - current_player (game s)).
Proof.
  cbv zeta. apply active_index_alternates.
  - apply (in_game_start "computer" "computer" false [6; 5; 6; 4; 6; 3] [] []).
    + repeat constructor; unfold die_face; lia.
    + vm_compute. reflexivity.
  - vm_compute. reflexivity.
Defined.

(** ** Scores *)

(** C9. In every state of a game no score is negative, and from there no
    score ever goes down: not over [self.play_turn()], whatever its outcome
    and wherever the random stream leaves it (rolling, accumulating the turn
    total, banking and passing the turn are all inside it), not over any
    number of further iterations of the loop of [start_game] (which checks
    the winner before each turn), not over [switch_player], [best_player] or
    [declare_winner]. *)
Theorem scores_never_decrease (s : state) :
  in_game s ->
  (forall l, 0 <= score_of s l) /\
  (forall l, score_of s l <= score_of (final (play_turn s)) l) /\
  (forall fuel l, score_of s l <= score_of (final (game_loop fuel s)) l) /\
  (forall fuel l, 0 <= score_of (final (game_loop fuel s)) l) /\
  heap (final (switch_player s)) = heap s /\
  heap (final (best_player s)) = heap s /\
  heap (final (declare_winner s)) = heap s.
Proof.
  intros Hs. destruct (in_game_inv s Hs) as (_ & _ & Hfaces & Hpos & _).
  split; [done |]. split.
  { apply (turn_effect_mono s _ Hfaces (play_turn_effect s)). }
  assert (Hloop : forall fuel l,
            score_of s l <= score_of (final (game_loop fuel s)) l).
  { intros fuel.
    apply (game_loop_inv
             (fun s1 => Forall die_face (rolls s1) /\
                        forall l, score_of s l <= score_of s1 l)).
    - intros s1 [Hf1 Hm1] _.
      destruct (turn_effect_mono s1 _ Hf1 (play_turn_effect s1)) as [Hf2 Hm2].
      split; [done |]. intros l. specialize (Hm1 l). specialize (Hm2 l). lia.
    - split; [done |]. intros l. lia. }
  split; [done |]. split.
  { intros fuel l. specialize (Hloop fuel l). specialize (Hpos l). lia. }
  split; [done |].
  rewrite best_player_unfold, declare_winner_unfold.
  by destruct (py_max _ _).
Qed.

Lemma scores_never_decrease_witness :
  let s := seated "computer" "human" true [6; 5; 6; 4; 6; 3] ["h"%string]
                  [0%Q; 1%Q] in
  (forall l, 0 <= score_of s l) /\
  (forall l, score_of s l <= score_of (final (play_turn s)) l) /\
  (forall fuel l, score_of s l <= score_of (final (game_loop fuel s)) l) /\
  (forall fuel l, 0 <= score_of (final (game_loop fuel s)) l) /\
  heap (final (switch_player s)) = heap s /\
  heap (final (best_player s)) = heap s /\
  heap (final (declare_winner s)) = heap s.
Proof.
  cbv zeta. apply scores_never_decrease.
  apply (in_game_start "computer" "human" true [6; 5; 6; 4; 6; 3]
           ["h"%string] [0%Q; 1%Q]).
  - repeat constructor; unfold die_face; lia.
  - vm_compute. reflexivity.
Defined.

(** ** The winner *)

(** Where the loop of [start_game] is left, one player has reached 100, the
    other has not, and [max] picks the first. *)
Lemma winner_ahead (s : state) :
  game_inv s -> is_winner s = true ->
  exists w o,
    py_max (score_of s) (players (game s)) = Some w /\
    ((w = 0%nat /\ o = 1%nat) \/ (w = 1%nat /\ o = 0%nat)) /\
    100 <= score_of s w /\ score_of s o < 100.
Proof.
  intros (Hpl & _ & _ & _ & Hone) Hw.
  apply is_winner_true in Hw. rewrite Hpl in Hw.
  rewrite !Exists_cons, Exists_nil in Hw.
  rewrite Hpl, py_max_two.
  destruct (Z.ltb_spec (score_of s 0%nat) (score_of s 1%nat)).
  - exists 1%nat, 0%nat. split; [done |]. split; [by right |]. lia.
  - exists 0%nat, 1%nat. split; [done |]. split; [by left |]. lia.
Qed.

(** A run of [main] that returns left the loop in a state of the game with a
    winner, and then congratulated the best player. *)
Lemma main_exit (t1 t2 : string) (timed : bool) (rs : list Z)
    (lines : list string) (ticks : list Q) (s' : state) :
  Forall die_face rs ->
  main t1 t2 timed (boot rs lines ticks) = Ret tt s' ->
  exists s w,
    in_game s /\ is_winner s = true /\
    py_max (score_of s) (players (game s)) = Some w /\
    s' = with_stdout
           (stdout s ++ [PCongrats (name_of s w) (score_of s w)]) s.
Proof.
  intros Hfaces. unfold main. unfold bind at 1.
  destruct (setup t1 t2 timed (boot rs lines ticks)) as [[] s0 | |] eqn:Hset;
    [| done | done].
  rewrite start_game_unfold. cbv zeta.
  destruct (game_loop _ _) as [[] s1 | |] eqn:Hloop; [| done | done].
  destruct (py_max _ _) as [w|] eqn:Hmax; [| done].
  intros [= <-]. exists s1, w.
  assert (Hin : in_game (with_stdout (stdout s0 ++ [PWelcome]) s0)).
  { apply (in_game_start t1 t2 timed rs lines ticks); [done |].
    unfold bind. by rewrite Hset. }
  split; [by eapply game_loop_in_game |].
  split; [by eapply game_loop_exit |]. done.
Qed.

(** C6. When a run of [main] returns (the loop of [start_game] was left),
    the last thing printed congratulates one of the two players, by name and
    score, and the score of that player is strictly higher than the score of
    the other. This holds of a game of either class; the untimed game is
    [timed = false]. *)
Theorem announced_winner_strictly_ahead (t1 t2 : string) (timed : bool)
    (rs : list Z) (lines : list string) (ticks : list Q) (s' : state) :
  Forall die_face rs ->
  main t1 t2 timed (boot rs lines ticks) = Ret tt s' ->
  exists w o,
    ((w = 0%nat /\ o = 1%nat) \/ (w = 1%nat /\ o = 0%nat)) /\
    players (game s') = [0%nat; 1%nat] /\
    last (stdout s') = Some (PCongrats (name_of s' w) (score_of s' w)) /\
    score_of s' o < score_of s' w.
Proof.
  intros Hfaces Hmain.
  destruct (main_exit _ _ _ _ _ _ _ Hfaces Hmain)
    as (s & w & Hin & Hw & Hmax & ->).
  apply in_game_inv in Hin.
  destruct (winner_ahead s Hin Hw) as (w' & o & Hmax' & Hwo & Hhi & Hlo).
  assert (w' = w) as -> by congruence.
  exists w, o. split; [done |]. split; [apply Hin |].
  split; [apply last_snoc |]. unfold score_of in *. cbn. lia.
Qed.

Lemma announced_winner_strictly_ahead_witness :
  let s' := final (main "computer" "computer" false
                        (boot (repeat 6 40) [] [])) in
  exists w o,
    ((w = 0%nat /\ o = 1%nat) \/ (w = 1%nat /\ o = 0%nat)) /\
    players (game s') = [0%nat; 1%nat] /\
    last (stdout s') = Some (PCongrats (name_of s' w) (score_of s' w)) /\
    score_of s' o < score_of s' w.
Proof.
  cbv zeta.
  apply (announced_winner_strictly_ahead "computer" "computer" false
           (repeat 6 40) [] []).
  - apply Forall_forall. intros r Hr. apply list_elem_of_In in Hr.
    apply repeat_spec in Hr as ->. unfold die_face. lia.
  - vm_compute. reflexivity.
Defined.

(** C10. When a run of [main] returns, exactly one of the two players has a
    score of 100 or more: the one the last line printed congratulates; the
    score of the other is below 100. *)
Theorem one_player_reached_100 (t1 t2 : string) (timed : bool)
    (rs : list Z) (lines : list string) (ticks : list Q) (s' : state) :
  Forall die_face rs ->
  main t1 t2 timed (boot rs lines ticks) = Ret tt s' ->
  exists w o,
    ((w = 0%nat /\ o = 1%nat) \/ (w = 1%nat /\ o = 0%nat)) /\
    players (game s') = [0%nat; 1%nat] /\
    last (stdout s') = Some (PCongrats (name_of s' w) (score_of s' w)) /\
    100 <= score_of s' w /\
    score_of s' o < 100 /\
    (forall l, l ∈ players (game s') -> 100 <= score_of s' l -> l = w).
Proof.
  intros Hfaces Hmain.
  destruct (main_exit _ _ _ _ _ _ _ Hfaces Hmain)
    as (s & w & Hin & Hw & Hmax & ->).
  apply in_game_inv in Hin.
  destruct (winner_ahead s Hin Hw) as (w' & o & Hmax' & Hwo & Hhi & Hlo).
  assert (w' = w) as -> by congruence.
  exists w, o. split; [done |]. split; [apply Hin |].
  split; [apply last_snoc |]. unfold score_of in *. cbn.
  split; [done |]. split; [done |].
  destruct Hin as (-> & _). intros l Hl Hl100.
  apply elem_of_cons in Hl as [-> | Hl].
  - destruct Hwo as [[-> ->] | [-> ->]]; [done | lia].
  - apply list_elem_of_singleton in Hl as ->.
    destruct Hwo as [[-> ->] | [-> ->]]; [lia | done].
Qed.

Lemma one_player_reached_100_witness :
  let s' := final (main "computer" "computer" false
                        (boot (repeat 6 40) [] [])) in
  exists w o,
    ((w = 0%nat /\ o = 1%nat) \/ (w = 1%nat /\ o = 0%nat)) /\
    players (game s') = [0%nat; 1%nat] /\
    last (stdout s') = Some (PCongrats (name_of s' w) (score_of s' w)) /\
    100 <= score_of s' w /\
    score_of s' o < 100 /\
    (forall l, l ∈ players (game s') -> 100 <= score_of s' l -> l = w).
Proof.
  cbv zeta.
  apply (one_player_reached_100 "computer" "computer" false
           (repeat 6 40) [] []).
  - apply Forall_forall. intros r Hr. apply list_elem_of_In in Hr.
    apply repeat_spec in Hr as ->. unfold die_face. lia.
  - vm_compute. reflexivity.
Defined.

(** ** The time limit *)

Lemma Qgtb_expired (s : state) (now : Q) :
  expired s now -> Qgtb (now - start_time (game s)) 60 = true.
Proof.
  unfold expired, Qgtb. intros Hlt.
  destruct (Qle_bool (now - start_time (game s)) 60) eqn:Hle; [| done].
  apply Qle_bool_iff in Hle. by apply Qlt_not_le in Hlt.
Qed.

Lemma times_up_S (n : nat) (e : event) :
  times_up (S n) e = PTimesUp :: e :: times_up n e.
Proof. reflexivity. Qed.

(** Past the limit, [TimedGameProxy.play_turn] prints its two lines and
    returns; nothing else changes but the clock. *)
Lemma timed_play_turn_expired (s : state) (w : loc) (now : Q) (rest : list Q) :
  gcls (game s) = TimedGameProxyC ->
  py_max (score_of s) (players (game s)) = Some w ->
  clock s = now :: rest -> expired s now ->
  play_turn s =
  Ret tt (with_stdout
            (stdout s ++ [PTimesUp; PTimeWinner (name_of s w) (score_of s w)])
            (with_clock rest s)).
Proof.
  intros Hcls Hmax Hck Hexp.
  unfold play_turn, bind, gets. rewrite Hcls.
  rewrite TimedGameProxy_play_turn_unfold, Hck. cbv zeta.
  rewrite (Qgtb_expired s now Hexp), declare_winner_unfold.
  change (py_max _ _) with (py_max (score_of s) (players (game s))).
  rewrite Hmax. cbn. by rewrite <- app_assoc.
Qed.

(** C1 fails on the code. Once the clock is past the limit at the start of a
    turn, with no winner yet, the loop of [start_game] of a timed game is
    never left: each of its iterations reads the clock, prints that the time
    is up and who leads, and returns to the test of the loop, which nothing
    has changed. However many iterations are allowed and however many
    readings the clock gives, the run is still going, with one announcement
    printed per iteration; the store and the random stream are as they
    were (no turn is played, no score changes). *)
Theorem timed_loop_never_exits (fuel : nat) (s : state) (w : loc) :
  gcls (game s) = TimedGameProxyC ->
  is_winner s = false ->
  py_max (score_of s) (players (game s)) = Some w ->
  Forall (expired s) (clock s) ->
  exists s',
    game_loop fuel s = Starved s' /\
    heap s' = heap s /\ game s' = game s /\ rolls s' = rolls s /\
    clock s' = drop fuel (clock s) /\
    stdout s' =
      stdout s ++ times_up (Nat.min fuel (length (clock s)))
                           (PTimeWinner (name_of s w) (score_of s w)).
Proof.
  revert s. induction fuel as [|n IH]; intros s Hcls Hw Hmax Hexp.
  { exists s. cbn. by rewrite app_nil_r. }
  rewrite game_loop_unfold, Hw.
  destruct (clock s) as [|now rest] eqn:Hck.
  { unfold play_turn, bind, gets. rewrite Hcls.
    rewrite TimedGameProxy_play_turn_unfold, Hck.
    exists s. rewrite Hck. cbn. by rewrite app_nil_r. }
  apply Forall_cons in Hexp as [Hnow Hrest].
  rewrite (timed_play_turn_expired s w now rest) by done.
  set (s1 := with_stdout _ _).
  destruct (IH s1) as (s' & Hloop & Hh & Hg & Hr & Hc & Ho); try done.
  exists s'. split; [done |]. rewrite Hh, Hg, Hr, Hc, Ho.
  do 4 (split; [reflexivity |]).
  change (Nat.min (S n) (length (now :: rest)))
    with (S (Nat.min n (length rest))).
  rewrite times_up_S. unfold s1. cbn [stdout with_stdout clock with_clock].
  rewrite <- app_assoc. reflexivity.
Qed.

Lemma timed_loop_never_exits_witness :
  let s := seated "human" "human" true [3; 4] []
                  [0%Q; 61%Q; 62%Q; 63%Q] in
  exists s',
    game_loop 5 s = Starved s' /\
    heap s' = heap s /\ game s' = game s /\ rolls s' = rolls s /\
    clock s' = drop 5 (clock s) /\
    stdout s' =
      stdout s ++ times_up (Nat.min 5 (length (clock s)))
                           (PTimeWinner (name_of s 0%nat) (score_of s 0%nat)).
Proof.
  cbv zeta. apply timed_loop_never_exits.
  - vm_compute. reflexivity.
  - vm_compute. reflexivity.
  - vm_compute. reflexivity.
  - repeat constructor.
Defined.

(** The loop of a timed game past the limit, for any bound. *)
Lemma timed_loop_spins (fuel : nat) (s : state) (w : loc) :
  gcls (game s) = TimedGameProxyC ->
  is_winner s = false ->
  py_max (score_of s) (players (game s)) = Some w ->
  Forall (expired s) (clock s) ->
  exists s',
    game_loop fuel s = Starved s' /\
    heap s' = heap s /\ game s' = game s /\ rolls s' = rolls s /\
    clock s' = drop fuel (clock s) /\
    stdout s' =
      stdout s ++ times_up (Nat.min fuel (length (clock s)))
                           (PTimeWinner (name_of s w) (score_of s w)).
Proof.
  revert s. induction fuel as [|n IH]; intros s Hcls Hw Hmax Hexp.
  { exists s. cbn. by rewrite app_nil_r. }
  rewrite game_loop_unfold, Hw.
  destruct (clock s) as [|now rest] eqn:Hck.
  { unfold play_turn, bind, gets. rewrite Hcls.
    rewrite TimedGameProxy_play_turn_unfold, Hck.
    exists s. rewrite Hck. cbn. by rewrite app_nil_r. }
  apply Forall_cons in Hexp as [Hnow Hrest].
  rewrite (timed_play_turn_expired s w now rest) by done.
  set (s1 := with_stdout _ _).
  destruct (IH s1) as (s' & Hloop & Hh & Hg & Hr & Hc & Ho); try done.
  exists s'. split; [done |]. rewrite Hh, Hg, Hr, Hc, Ho.
  do 4 (split; [reflexivity |]).
  change (Nat.min (S n) (length (now :: rest)))
    with (S (Nat.min n (length rest))).
  rewrite times_up_S. unfold s1. cbn [stdout with_stdout clock with_clock].
  rewrite <- app_assoc. reflexivity.
Qed.

(** The same, for [start_game] as [main] calls it: the run takes every
    reading the clock has and never congratulates anyone. *)
Lemma timed_start_game_spins (s : state) (w : loc) :
  gcls (game s) = TimedGameProxyC ->
  is_winner s = false ->
  py_max (score_of s) (players (game s)) = Some w ->
  Forall (expired s) (clock s) ->
  exists s',
    start_game s = Starved s' /\
    heap s' = heap s /\ rolls s' = rolls s /\ clock s' = [] /\
    stdout s' =
      stdout s ++ PWelcome ::
        times_up (length (clock s))
                 (PTimeWinner (name_of s w) (score_of s w)).
Proof.
  intros Hcls Hw Hmax Hexp. rewrite start_game_unfold. cbv zeta.
  set (s0 := with_stdout (stdout s ++ [PWelcome]) s).
  destruct (timed_loop_spins
              (S (length (rolls s0) + length (clock s0))) s0 w)
    as (s' & Hloop & Hh & Hg & Hr & Hc & Ho); try done.
  exists s'. rewrite Hloop, Hh, Hr, Hc, Ho.
  do 3 (split; [reflexivity |]). split.
  - apply drop_ge. lia.
  - rewrite Nat.min_r by lia. unfold s0.
    cbn [stdout with_stdout clock]. by rewrite <- app_assoc.
Qed.

(** The failing run: two human players, the clock at 0 when the game is
    created and past 60 seconds when the first turn is about to start. *)
Example timed_game_past_limit :
  let s := table "human" "human" true [3; 4] [] [0%Q; 61%Q; 62%Q; 63%Q] in
  exists s',
    start_game s = Starved s' /\
    score_of s' 0%nat = 0 /\ score_of s' 1%nat = 0 /\
    rolls s' = [3; 4] /\
    stdout s' = [PWelcome;
                 PTimesUp; PTimeWinner "Player 1" 0;
                 PTimesUp; PTimeWinner "Player 1" 0;
                 PTimesUp; PTimeWinner "Player 1" 0].
Proof.
  cbv zeta. eexists. split; [vm_compute; reflexivity |]. by vm_compute.
Qed.

(** * Beyond the claims *)

(** ** The computer's rule *)

(** The rule of [ComputerPlayer.make_decision] in one test. *)
Lemma hold_rule (self : loc)
    (current_score turn_total : Z) (s : state) :
  ComputerPlayer_make_decision self current_score turn_total s =
  Ret (if hold_at current_score <=? turn_total
       then "h"%string else "r"%string) s.
Proof.
  unfold ComputerPlayer_make_decision, hold_at.
  destruct (Z.leb_spec (Z.min 25 (100 - current_score)) turn_total),
    (Z.geb_spec (turn_total + current_score) 100),
    (Z.geb_spec turn_total (Z.min 25 (100 - current_score)));
    cbn; try done; lia.
Qed.

(** The first test of [ComputerPlayer.make_decision] adds nothing to the
    second: the computer holds exactly when the turn total has reached the
    lesser of 25 and [100 - current_score], as its docstring says. *)
Theorem computer_holds_at_threshold (self : loc)
    (current_score turn_total : Z) (s : state) :
  ComputerPlayer_make_decision self current_score turn_total s =
  Ret (if hold_at current_score <=? turn_total
       then "h"%string else "r"%string) s.
Proof. apply hold_rule. Qed.

(** One iteration of the turn loop for a player of class [ComputerPlayer]:
    it never raises and never reads a line. *)
Lemma computer_body (p : loc) (s : state) (r : Z) (rest : list Z) :
  cls (heap s !!! p) = ComputerPlayerC ->
  rolls s = r :: rest ->
  exists s',
    play_turn_body p s =
      Ret (if r =? 1 then Break
           else if hold_at (score_of s p) <=? turn_total (game s) + r
                then Break else Continue) s' /\
    rolls s' = rest /\ stdin s' = stdin s /\
    players (game s') = players (game s) /\
    gcls (game s') = gcls (game s) /\
    turn_total (game s') = (if r =? 1 then 0 else turn_total (game s) + r) /\
    heap s' =
      (if r =? 1 then heap s
       else if hold_at (score_of s p) <=? turn_total (game s) + r
            then credit p (turn_total (game s) + r) (heap s) else heap s).
Proof.
  intros Hcls Hr. unfold play_turn_body.
  unfold make_decision. unfold bind at 1. unfold Die_roll, bind at 1.
  unfold randint_1_6 at 1. rewrite Hr.
  unfold bind, modify, gets, print, set_turn_total, switch_player,
    add_to_score, ret. cbn [game with_game die_value with_die_value].
  destruct (r =? 1); [by eexists |]. cbn.
  rewrite Hcls, hold_rule.
  destruct (hold_at _ <=? _); cbn; by eexists.
Qed.

(** ** A turn of the computer *)

(** The loop of a computer's turn never raises and never reads a line. *)
Lemma computer_loop_quiet (p : loc) (fuel : nat) (s : state) :
  cls (heap s !!! p) = ComputerPlayerC ->
  (forall e s', while fuel (ret true) (play_turn_body p) s ≠ Raise e s') /\
  stdin (final (while fuel (ret true) (play_turn_body p) s)) = stdin s.
Proof.
  revert s. induction fuel as [|n IH]; intros s Hcls; [done |].
  rewrite while_true_unfold.
  destruct (rolls s) as [|r rest] eqn:Hr.
  { pose proof (play_turn_body_step p s) as Hstep.
    inversion Hstep as [ _ Ho | ? Hr' | ? ? Hr' | ? ? Hr' | ? ? Hr'];
      try (rewrite Hr in Hr'; discriminate Hr'). done. }
  destruct (computer_body p s r rest Hcls Hr)
    as (s' & -> & _ & Hin & _ & _ & _ & Hh).
  destruct (r =? 1); [done |].
  destruct (hold_at _ <=? _); [done |].
  destruct (IH s') as [Hno Hsame]; [by rewrite Hh |].
  split; [done |]. by rewrite Hsame.
Qed.

(** What the loop of a computer's turn banks, from a score below 100 and a
    turn total below the threshold. *)
Lemma computer_loop_banks (p : loc) (fuel : nat) (s s' : state) :
  cls (heap s !!! p) = ComputerPlayerC ->
  Forall die_face (rolls s) ->
  0 <= turn_total (game s) < hold_at (score_of s p) ->
  while fuel (ret true) (play_turn_body p) s = Ret tt s' ->
  heap s' = heap s \/
  exists total,
    heap s' = credit p total (heap s) /\
    hold_at (score_of s p) <= total <= hold_at (score_of s p) + 5.
Proof.
  revert s. induction fuel as [|n IH]; intros s Hcls Hfaces Htt; [done |].
  rewrite while_true_unfold.
  destruct (rolls s) as [|r rest] eqn:Hr.
  { pose proof (play_turn_body_step p s) as Hstep.
    inversion Hstep as [ _ Ho | ? Hr' | ? ? Hr' | ? ? Hr' | ? ? Hr'];
      try (rewrite Hr in Hr'; discriminate Hr'). done. }
  destruct (computer_body p s r rest Hcls Hr)
    as (s1 & -> & Hr1 & _ & _ & _ & Ht & Hh).
  apply Forall_cons in Hfaces as [Hface Hfaces]. unfold die_face in Hface.
  destruct (Z.eqb_spec r 1) as [-> | Hne].
  { intros [= <-]. by left. }
  destruct (Z.leb_spec (hold_at (score_of s p)) (turn_total (game s) + r)).
  { intros [= <-]. right. exists (turn_total (game s) + r).
    split; [done |]. lia. }
  assert (Hsc : score_of s1 p = score_of s p).
  { unfold score_of. by rewrite Hh. }
  intros Hloop. rewrite <- Hh, <- Hsc. apply IH; try done.
  - by rewrite Hh.
  - by rewrite Hr1.
  - rewrite Hsc, Ht. lia.
Qed.

(** With [k] die faces to come and a turn total of at least [25 - 2k], the
    loop of a computer's turn returns within [k] rolls: a roll that does not
    end the turn adds at least 2. *)
Lemma computer_loop_returns (p : loc) (k fuel : nat) (s : state) :
  cls (heap s !!! p) = ComputerPlayerC ->
  Forall die_face (rolls s) ->
  (1 <= k)%nat -> (k <= length (rolls s))%nat -> (k <= fuel)%nat ->
  25 <= turn_total (game s) + 2 * Z.of_nat k ->
  exists s',
    while fuel (ret true) (play_turn_body p) s = Ret tt s' /\
    (length (rolls s) <= length (rolls s') + k)%nat.
Proof.
  revert fuel s. induction k as [|k IH]; intros fuel s Hcls Hfaces Hk Hlen Hfuel Htt;
    [lia |].
  destruct fuel as [|fuel]; [lia |].
  rewrite while_true_unfold.
  destruct (rolls s) as [|r rest] eqn:Hr; [cbn in Hlen; lia |].
  destruct (computer_body p s r rest Hcls Hr)
    as (s1 & -> & Hr1 & _ & _ & _ & Ht & Hh).
  apply Forall_cons in Hfaces as [Hface Hfaces]. unfold die_face in Hface.
  cbn in Hlen.
  destruct (Z.eqb_spec r 1) as [-> | Hne].
  { exists s1. split; [done |]. rewrite Hr1. cbn. lia. }
  destruct (Z.leb_spec (hold_at (score_of s p)) (turn_total (game s) + r))
    as [Hhold | Hroll].
  { exists s1. split; [done |]. rewrite Hr1. cbn. lia. }
  assert (k ≠ 0%nat) as Hk0.
  { intros ->. unfold hold_at in Hroll. lia. }
  assert (Hcls1 : cls (heap s1 !!! p) = ComputerPlayerC) by (by rewrite Hh).
  assert (Hfaces1 : Forall die_face (rolls s1)) by (by rewrite Hr1).
  assert (Hlen1 : (k <= length (rolls s1))%nat) by (rewrite Hr1; lia).
  assert (Htt1 : 25 <= turn_total (game s1) + 2 * Z.of_nat k)
    by (rewrite Ht; lia).
  destruct (IH fuel s1 Hcls1 Hfaces1 ltac:(lia) Hlen1 ltac:(lia) Htt1)
    as (s' & Hloop & Hlen').
  exists s'. split; [done |]. rewrite Hr1 in Hlen'. cbn. lia.
Qed.

Lemma Game_play_turn_unfold (s : state) (p : loc) :
  active_player s = Some p ->
  Game_play_turn s =
  while (S (length (rolls s))) (ret true) (play_turn_body p)
        (with_game (with_turn_total 0 (game s)) s).
Proof.
  intros Hp. unfold Game_play_turn, bind, gets, set_turn_total, modify.
  by rewrite Hp.
Qed.

(** A computer's turn neither raises nor reads. *)
Lemma computer_turn_silent (s : state) (p : loc) :
  active_player s = Some p ->
  cls (heap s !!! p) = ComputerPlayerC ->
  (forall e s', Game_play_turn s ≠ Raise e s') /\
  stdin (final (Game_play_turn s)) = stdin s.
Proof.
  intros Hp Hcls. rewrite (Game_play_turn_unfold s p Hp).
  by apply (computer_loop_quiet p _ (with_game _ s)).
Qed.

(** A turn of a computer player never raises and never reads from the
    prompt, whatever the random stream gives and wherever it leaves the
    turn. *)
Theorem computer_turn_quiet (s : state) (p : loc) :
  active_player s = Some p ->
  cls (heap s !!! p) = ComputerPlayerC ->
  (forall e s', Game_play_turn s ≠ Raise e s') /\
  stdin (final (Game_play_turn s)) = stdin s.
Proof. apply computer_turn_silent. Qed.

Lemma computer_turn_quiet_witness :
  let s := table "computer" "human" false [6; 5; 2] ["h"%string] [] in
  (forall e s', Game_play_turn s ≠ Raise e s') /\
  stdin (final (Game_play_turn s)) = stdin s.
Proof.
  cbv zeta. apply (computer_turn_quiet _ 0%nat); vm_compute; reflexivity.
Defined.

(** Thirteen die faces end a computer's turn. *)
Lemma computer_turn_ends (s : state) (p : loc) :
  active_player s = Some p ->
  cls (heap s !!! p) = ComputerPlayerC ->
  Forall die_face (rolls s) ->
  (13 <= length (rolls s))%nat ->
  exists s',
    Game_play_turn s = Ret tt s' /\
    (length (rolls s) <= length (rolls s') + 13)%nat.
Proof.
  intros Hp Hcls Hfaces Hlen. rewrite (Game_play_turn_unfold s p Hp).
  apply (computer_loop_returns p 13 _ (with_game _ s)); cbn; try done; lia.
Qed.

(** A turn of a computer player is over within 13 rolls: given 13 die faces
    or more to come, [Game.play_turn] returns, having taken at most 13. *)
Theorem computer_turn_returns (s : state) (p : loc) :
  active_player s = Some p ->
  cls (heap s !!! p) = ComputerPlayerC ->
  Forall die_face (rolls s) ->
  (13 <= length (rolls s))%nat ->
  exists s',
    Game_play_turn s = Ret tt s' /\
    (length (rolls s) <= length (rolls s') + 13)%nat.
Proof. apply computer_turn_ends. Qed.

Lemma computer_turn_returns_witness :
  let s := table "computer" "computer" false (repeat 2 13) [] [] in
  exists s',
    Game_play_turn s = Ret tt s' /\
    (length (rolls s) <= length (rolls s') + 13)%nat.
Proof.
  cbv zeta. apply (computer_turn_returns _ 0%nat).
  - vm_compute. reflexivity.
  - vm_compute. reflexivity.
  - repeat constructor; unfold die_face; lia.
  - vm_compute. lia.
Defined.

(** The bound is reached: on twelve 2s the computer is still rolling. *)
Example computer_turn_of_twelve_twos :
  let s := table "computer" "computer" false (repeat 2 12) [] [] in
  exists s', Game_play_turn s = Starved s' /\ turn_total (game s') = 24.
Proof. cbv zeta. eexists. split; vm_compute; reflexivity. Qed.

(** What a computer's turn adds to its score. *)
Lemma computer_turn_gain (s s' : state) (p : loc) :
  active_player s = Some p ->
  cls (heap s !!! p) = ComputerPlayerC ->
  Forall die_face (rolls s) ->
  score_of s p < 100 ->
  Game_play_turn s = Ret tt s' ->
  (score_of s' p = score_of s p \/
   (hold_at (score_of s p) <= score_of s' p - score_of s p
      <= hold_at (score_of s p) + 5 /\
    (75 <= score_of s p -> 100 <= score_of s' p))) /\
  score_of s' p <= 105 /\
  (forall l, l ≠ p -> heap s' !!! l = heap s !!! l).
Proof.
  intros Hp Hcls Hfaces Hsc. rewrite (Game_play_turn_unfold s p Hp).
  intros Hloop.
  apply (computer_loop_banks p _ (with_game _ s)) in Hloop; try done.
  2: { cbn. unfold hold_at. change (score_of _ p) with (score_of s p). lia. }
  change (score_of (with_game _ s) p) with (score_of s p) in Hloop.
  cbn [heap with_game] in Hloop. unfold score_of in *.
  destruct Hloop as [-> | (total & -> & Htot)].
  - split; [by left |]. split; [lia | done].
  - rewrite credit_score. unfold hold_at in *. split; [right; lia |].
    split; [lia |]. intros l Hl. by apply credit_other.
Qed.

(** What a computer player banks. From a score below 100, a turn of a
    computer player that returns either leaves its score as it was (a 1 was
    rolled) or adds at least the threshold [hold_at], the lesser of 25 and
    what is missing to 100, and at most 5 more; so its score ends at 105 at
    most, and at 100 or more if it was 75 or more. No other object changes. *)
Theorem computer_turn_banks (s s' : state) (p : loc) :
  active_player s = Some p ->
  cls (heap s !!! p) = ComputerPlayerC ->
  Forall die_face (rolls s) ->
  score_of s p < 100 ->
  Game_play_turn s = Ret tt s' ->
  (score_of s' p = score_of s p \/
   (hold_at (score_of s p) <= score_of s' p - score_of s p
      <= hold_at (score_of s p) + 5 /\
    (75 <= score_of s p -> 100 <= score_of s' p))) /\
  score_of s' p <= 105 /\
  (forall l, l ≠ p -> heap s' !!! l = heap s !!! l).
Proof. apply computer_turn_gain. Qed.

Lemma computer_turn_banks_witness :
  let s := table "computer" "computer" false [6; 5; 6; 4; 6; 3] [] [] in
  let s' := final (Game_play_turn s) in
  (score_of s' 0%nat = score_of s 0%nat \/
   (hold_at (score_of s 0%nat) <= score_of s' 0%nat - score_of s 0%nat
      <= hold_at (score_of s 0%nat) + 5 /\
    (75 <= score_of s 0%nat -> 100 <= score_of s' 0%nat))) /\
  score_of s' 0%nat <= 105 /\
  (forall l, l ≠ 0%nat -> heap s' !!! l = heap s !!! l).
Proof.
  cbv zeta. apply (computer_turn_banks _ _ 0%nat).
  - vm_compute. reflexivity.
  - vm_compute. reflexivity.
  - repeat constructor; unfold die_face; lia.
  - vm_compute. reflexivity.
  - vm_compute. reflexivity.
Defined.

(** ** Who is named the winner *)

Lemma fold_best_split {A} (key : A -> Z) (xs pre mid : list A) (x : A) :
  Forall (fun y => key y < key x) pre ->
  Forall (fun y => key y <= key x) mid ->
  let w := fold_left (fun best y => if key best <? key y then y else best)
                     xs x in
  exists l1 l2,
    pre ++ x :: mid ++ xs = l1 ++ w :: l2 /\
    Forall (fun y => key y < key w) l1 /\
    Forall (fun y => key y <= key w) l2.
Proof.
  revert pre mid x. induction xs as [|y xs IH]; intros pre mid x Hpre Hmid.
  { exists pre, mid. by rewrite app_nil_r. }
  cbn. destruct (Z.ltb_spec (key x) (key y)) as [Hlt | Hge].
  - destruct (IH (pre ++ x :: mid) [] y) as (l1 & l2 & Heq & H1 & H2).
    + apply Forall_app. split.
      * eapply Forall_impl; [exact Hpre |]. cbn. intros; lia.
      * apply Forall_cons. split; [done |].
        eapply Forall_impl; [exact Hmid |]. cbn. intros; lia.
    + done.
    + exists l1, l2. split; [| done]. rewrite <- Heq.
      by rewrite <- !app_assoc.
  - destruct (IH pre (mid ++ [y]) x) as (l1 & l2 & Heq & H1 & H2).
    + done.
    + apply Forall_app. split; [done |]. apply Forall_cons. split; [lia | done].
    + exists l1, l2. split; [| done]. rewrite <- Heq.
      by rewrite <- !app_assoc.
Qed.

(** [max] with a key: an element of the list with the greatest key, and the
    first of those. *)
Lemma py_max_first {A} (key : A -> Z) (l : list A) (w : A) :
  py_max key l = Some w ->
  exists l1 l2,
    l = l1 ++ w :: l2 /\
    Forall (fun y => key y < key w) l1 /\
    Forall (fun y => key y <= key w) l2.
Proof.
  destruct l as [|x xs]; [done |]. intros [= <-].
  apply (fold_best_split key xs [] [] x); constructor.
Qed.

(** [declare_winner] and the end of [start_game] agree on whom they name:
    with any player at the table, both name a player no other outscores,
    and of several such the one that comes first in the list, so the first
    player wins a tie; neither touches anything but the output. *)
Theorem winner_is_first_leader (s : state) :
  players (game s) ≠ [] ->
  exists w l1 l2,
    best_player s = Ret w s /\
    declare_winner s =
      Ret tt (with_stdout
                (stdout s ++ [PTimeWinner (name_of s w) (score_of s w)]) s) /\
    players (game s) = l1 ++ w :: l2 /\
    Forall (fun p => score_of s p < score_of s w) l1 /\
    Forall (fun p => score_of s p <= score_of s w) l2.
Proof.
  intros Hne. rewrite best_player_unfold, declare_winner_unfold.
  destruct (py_max (score_of s) (players (game s))) as [w|] eqn:Hmax.
  - destruct (py_max_first _ _ _ Hmax) as (l1 & l2 & Hl & H1 & H2).
    by exists w, l1, l2.
  - by destruct (players (game s)).
Qed.

Lemma winner_is_first_leader_witness :
  let s := table "human" "computer" true [] [] [0%Q] in
  exists w l1 l2,
    best_player s = Ret w s /\
    declare_winner s =
      Ret tt (with_stdout
                (stdout s ++ [PTimeWinner (name_of s w) (score_of s w)]) s) /\
    players (game s) = l1 ++ w :: l2 /\
    Forall (fun p => score_of s p < score_of s w) l1 /\
    Forall (fun p => score_of s p <= score_of s w) l2.
Proof.
  cbv zeta. apply winner_is_first_leader. vm_compute. discriminate.
Defined.

(** Level at 0 and 0, the timed game names Player 1. *)
Example tie_goes_to_player_1 :
  let s := table "human" "computer" true [] [] [0%Q] in
  best_player s = Ret 0%nat s.
Proof. vm_compute. reflexivity. Qed.

(** ** Creating players *)

Lemma class_of_some (t : string) (c : PlayerClass) :
  class_of t = Some c <->
  (t = "computer"%string /\ c = ComputerPlayerC) \/
  (t = "human"%string /\ c = PlayerC).
Proof.
  unfold class_of.
  destruct (String.eqb_spec t "computer") as [-> | H1].
  { split; [intros [= <-]; auto | intros [[_ ->] | [[=] _]]; done]. }
  destruct (String.eqb_spec t "human") as [-> | H2].
  { split; [intros [= <-]; auto | intros [[[=] _] | [_ ->]]; done]. }
  split; [done | intros [[-> _] | [-> _]]; done].
Qed.

(** The three ways [create_player] can go. *)
Lemma create_player_cases (player_type nm : string) (s : state) :
  match create_player player_type nm s with
  | Ret l s' =>
      class_of player_type = Some (cls (heap s' !!! l)) /\
      heap s !! l = None /\
      name_of s' l = nm /\ score_of s' l = 0 /\
      (forall l', l' ≠ l -> heap s' !! l' = heap s !! l') /\
      game s' = game s /\ stdout s' = stdout s
  | Raise e s' =>
      e = ValueError /\ s' = s /\ class_of player_type = None
  | Starved _ => False
  end.
Proof.
  assert (Hnew : forall c,
    match new_player c nm s with
    | Ret l s' =>
        Some c = Some (cls (heap s' !!! l)) /\
        heap s !! l = None /\
        name_of s' l = nm /\ score_of s' l = 0 /\
        (forall l', l' ≠ l -> heap s' !! l' = heap s !! l') /\
        game s' = game s /\ stdout s' = stdout s
    | _ => False
    end).
  { intros c. unfold new_player, name_of, score_of. cbn.
    rewrite lookup_total_insert_eq. cbn.
    split; [done |]. split.
    { apply not_elem_of_dom. apply is_fresh. }
    do 2 (split; [done |]). split; [| done].
    intros l' Hl'. by rewrite lookup_insert_ne. }
  unfold create_player, class_of.
  destruct (String.eqb player_type "computer"); [apply Hnew |].
  destruct (String.eqb player_type "human"); [apply Hnew |].
  done.
Qed.

(** [PlayerFactory.create_player] answers a type other than ['computer'] and
    ['human'] (in that exact spelling) with [ValueError] and changes
    nothing; for those two it returns an object that was not in the store
    before, of the class asked for, with the name given and a score of 0,
    and leaves every object there was as it was. *)
Theorem create_player_fresh (player_type nm : string) (s : state) :
  match create_player player_type nm s with
  | Ret l s' =>
      class_of player_type = Some (cls (heap s' !!! l)) /\
      heap s !! l = None /\
      name_of s' l = nm /\ score_of s' l = 0 /\
      (forall l', l' ≠ l -> heap s' !! l' = heap s !! l') /\
      game s' = game s /\ stdout s' = stdout s
  | Raise e s' =>
      e = ValueError /\ s' = s /\ class_of player_type = None
  | Starved _ => False
  end.
Proof. apply create_player_cases. Qed.

(** The spelling matters. *)
Example create_player_capital :
  create_player "Human" "Player 1" (boot [] [] []) =
  Raise ValueError (boot [] [] []).
Proof. reflexivity. Qed.

(** The classes of the two players [main] creates are those of the two
    types it was given. *)
Lemma setup_classes (t1 t2 : string) (timed : bool) (rs : list Z)
    (lines : list string) (ticks : list Q) (s : state) :
  setup t1 t2 timed (boot rs lines ticks) = Ret tt s ->
  class_of t1 = Some (cls (heap s !!! 0%nat)) /\
  class_of t2 = Some (cls (heap s !!! 1%nat)) /\
  seats s /\ stdin s = lines.
Proof.
  unfold setup. unfold bind at 1.
  pose proof (create_player_cases t1 "Player 1" (boot rs lines ticks)) as H1.
  destruct (create_player t1 "Player 1" (boot rs lines ticks))
    as [l1 s1 | |] eqn:Hc1; [| done | done].
  destruct H1 as (Hcls1 & _ & _ & _ & _ & _ & _).
  unfold create_player in Hc1.
  assert (Hs1 : l1 = 0%nat /\ exists c1,
            s1 = with_heap (<[0%nat := mkPlayer c1 "Player 1" 0]> ∅)
                           (boot rs lines ticks)).
  { destruct (String.eqb t1 "computer");
      [| destruct (String.eqb t1 "human"); [| done]];
      rewrite new_player_first in Hc1 by done; injection Hc1 as <- <-; eauto. }
  destruct Hs1 as (-> & c1 & ->).
  unfold bind at 1.
  pose proof (create_player_cases t2 "Player 2"
    (with_heap (<[0%nat := mkPlayer c1 "Player 1" 0]> ∅)
               (boot rs lines ticks))) as H2.
  destruct (create_player t2 "Player 2" _) as [l2 s2 | |] eqn:Hc2;
    [| done | done].
  destruct H2 as (Hcls2 & _ & _ & _ & _ & _ & _).
  unfold create_player in Hc2.
  assert (Hs2 : l2 = 1%nat /\ exists c2,
            s2 = with_heap (<[1%nat := mkPlayer c2 "Player 2" 0]>
                              (<[0%nat := mkPlayer c1 "Player 1" 0]> ∅))
                           (boot rs lines ticks)).
  { destruct (String.eqb t2 "computer");
      [| destruct (String.eqb t2 "human"); [| done]];
      erewrite new_player_second in Hc2 by done;
      injection Hc2 as <- <-; eauto. }
  destruct Hs2 as (-> & c2 & ->).
  cbn [heap with_heap] in Hcls1, Hcls2.
  rewrite lookup_total_insert_eq in Hcls1, Hcls2. cbn in Hcls1, Hcls2.
  assert (Hgoal : forall s : state,
    heap s = <[1%nat := mkPlayer c2 "Player 2" 0]>
               (<[0%nat := mkPlayer c1 "Player 1" 0]> ∅) ->
    players (game s) = [0%nat; 1%nat] -> current_player (game s) = 0 ->
    stdin s = lines ->
    class_of t1 = Some (cls (heap s !!! 0%nat)) /\
    class_of t2 = Some (cls (heap s !!! 1%nat)) /\
    seats s /\ stdin s = lines).
  { intros s0 Hh Hpl Hcp Hin. rewrite Hh.
    rewrite lookup_total_insert_ne by done.
    rewrite !lookup_total_insert_eq. cbn. unfold seats.
    rewrite Hpl, Hcp. repeat split; auto. }
  destruct timed.
  - unfold new_TimedGameProxy, Game_init, bind, modify, time_time. cbn.
    destruct ticks as [|t ticks']; [done |].
    intros [= <-]. by apply Hgoal.
  - unfold new_Game, Game_init, bind, modify. cbn.
    intros [= <-]. by apply Hgoal.
Qed.

(** ** What a game can raise *)

Lemma seats_active (s : state) :
  seats s ->
  exists p, active_player s = Some p /\ (p = 0%nat \/ p = 1%nat).
Proof.
  intros [Hpl Hcp]. unfold active_player. rewrite Hpl.
  destruct Hcp as [-> | ->]; [exists 0%nat | exists 1%nat]; auto.
Qed.

Lemma turn_effect_seats (s s' : state) :
  seats s -> turn_effect s s' -> seats s'.
Proof.
  intros [Hpl Hcp] (_ & Hpl' & _ & used & _ & Heff). split; [congruence |].
  destruct Heff as [[_ Hc] | (p & _ & _ & _ & _ & Hc)]; lia.
Qed.

Lemma turn_effect_cls (s s' : state) (l : loc) :
  turn_effect s s' -> cls (heap s' !!! l) = cls (heap s !!! l).
Proof.
  intros (_ & _ & _ & used & _ & Heff).
  destruct Heff as [[-> _] | (p & _ & _ & _ & -> & _)]; [done |].
  destruct (decide (l = p)) as [-> | Hne];
    [apply credit_cls | by rewrite credit_other].
Qed.

(** [Game.play_turn] raises [IndexError] when there is no active player and
    [EOFError] when the input ends under a human player; in both cases no
    score has changed and the turn has not been passed. *)
Lemma Game_play_turn_raise (s s' : state) (e : exn) :
  Game_play_turn s = Raise e s' ->
  heap s' = heap s /\
  current_player (game s') = current_player (game s) /\
  ((e = IndexError /\ active_player s = None) \/
   (e = EOFError /\
    exists p, active_player s = Some p /\ cls (heap s !!! p) = PlayerC)).
Proof.
  intros Hraise.
  destruct (active_player s) as [p|] eqn:Hp.
  2: { rewrite Game_play_turn_index in Hraise by done.
       injection Hraise as <- <-. auto. }
  pose proof (Game_play_turn_run s p Hp) as Hrun. rewrite Hraise in Hrun.
  inversion Hrun as [| | used s1 Hr Hused Hh Ht Hc Hs |]; subst.
  cbn in *. split; [done |]. split; [done |]. right. split; [done |].
  exists p. split; [done |].
  destruct (cls (heap s !!! p)) eqn:Hcls; [done |].
  destruct (computer_turn_silent s p Hp Hcls) as [Hno _].
  exfalso. by eapply Hno.
Qed.

Lemma play_turn_raise (s s' : state) (e : exn) :
  seats s -> play_turn s = Raise e s' ->
  e = EOFError /\ heap s' = heap s /\
  exists p, (p = 0%nat \/ p = 1%nat) /\ cls (heap s !!! p) = PlayerC.
Proof.
  intros Hseats.
  assert (Hgame : forall s1, heap s1 = heap s -> game s1 = game s ->
            Game_play_turn s1 = Raise e s' ->
            e = EOFError /\ heap s' = heap s /\
            exists p, (p = 0%nat \/ p = 1%nat) /\ cls (heap s !!! p) = PlayerC).
  { intros s1 Hh Hg Hraise.
    destruct (seats_active s Hseats) as (p & Hp & Hp01).
    assert (Hp1 : active_player s1 = Some p).
    { unfold active_player in *. by rewrite Hg. }
    apply Game_play_turn_raise in Hraise
      as (Hh' & _ & [[_ Hnone] | (-> & q & Hq & Hcls)]); [congruence |].
    assert (q = p) as -> by congruence.
    split; [done |]. split; [congruence |]. exists p. by rewrite <- Hh. }
  unfold play_turn, bind, gets. destruct (gcls (game s)).
  { by apply Hgame. }
  rewrite TimedGameProxy_play_turn_unfold.
  destruct (clock s) as [|now rest]; [done |]. cbn.
  destruct (Qgtb _ _).
  - rewrite declare_winner_unfold. cbn. destruct Hseats as [-> _]. done.
  - by apply Hgame.
Qed.

(** Where the loop of [start_game] can end, for a property of the state
    that every turn it plays keeps. *)
Lemma game_loop_reach (I : state -> Prop) :
  (forall s s', I s -> is_winner s = false -> play_turn s = Ret tt s' -> I s') ->
  forall fuel s, I s ->
    match game_loop fuel s with
    | Ret _ s' => I s' /\ is_winner s' = true
    | Raise e s' =>
        exists s1, I s1 /\ is_winner s1 = false /\ play_turn s1 = Raise e s'
    | Starved _ => True
    end.
Proof.
  intros Hstep fuel. induction fuel as [|n IH]; intros s Hs; [done |].
  rewrite game_loop_unfold.
  destruct (is_winner s) eqn:Hw; [done |].
  destruct (play_turn s) as [[] s1 | e s1 | s1] eqn:Hturn; [| | done].
  - apply IH. by eapply Hstep.
  - by exists s.
Qed.

(** The exceptions of a run of [main]. *)
Lemma main_raise_cases (t1 t2 : string) (timed : bool) (rs : list Z)
    (lines : list string) (ticks : list Q) (e : exn) (s' : state) :
  main t1 t2 timed (boot rs lines ticks) = Raise e s' ->
  (e = ValueError /\ stdout s' = [] /\
   (class_of t1 = None \/ class_of t2 = None)) \/
  (e = EOFError /\
   class_of t1 ≠ None /\ class_of t2 ≠ None /\
   (t1 = "human"%string \/ t2 = "human"%string)).
Proof.
  unfold main. unfold bind at 1.
  destruct (setup t1 t2 timed (boot rs lines ticks)) as [[] s0 | e0 s0 |]
    eqn:Hset; [| | done].
  - (* the game was set up *)
    apply setup_classes in Hset as (Hc1 & Hc2 & Hseats & _).
    rewrite start_game_unfold. cbv zeta.
    set (I := fun s : state =>
           seats s /\
           cls (heap s !!! 0%nat) = cls (heap s0 !!! 0%nat) /\
           cls (heap s !!! 1%nat) = cls (heap s0 !!! 1%nat)).
    assert (Hstep : forall s1 s2 : state,
              I s1 -> is_winner s1 = false -> play_turn s1 = Ret tt s2 -> I s2).
    { intros s1 s2 (Hs & H0 & H1) _ Hturn.
      pose proof (play_turn_effect s1) as Heff. rewrite Hturn in Heff.
      cbn in Heff. split; [by eapply turn_effect_seats |].
      by rewrite !(turn_effect_cls s1 s2 _ Heff). }
    pose proof (game_loop_reach I Hstep) as Hreach.
    match goal with
    | |- context [game_loop ?n ?s] => specialize (Hreach n s)
    end.
    specialize (Hreach (conj Hseats (conj eq_refl eq_refl))).
    destruct (game_loop _ _) as [[] s1 | e1 s1 |]; [| | done].
    + destruct Hreach as [([Hpl _] & _) _]. rewrite Hpl. done.
    + intros [= -> ->].
      destruct Hreach as (s2 & (Hs2 & H0 & H1) & _ & Hraise).
      apply play_turn_raise in Hraise as (-> & _ & p & Hp & Hcls); [| done].
      right. split; [done |]. split; [by rewrite Hc1 |].
      split; [by rewrite Hc2 |].
      destruct Hp as [-> | ->].
      * left. rewrite H0 in Hcls. rewrite Hcls in Hc1.
        apply class_of_some in Hc1 as [[_ [=]] | [-> _]]. done.
      * right. rewrite H1 in Hcls. rewrite Hcls in Hc2.
        apply class_of_some in Hc2 as [[_ [=]] | [-> _]]. done.
  - (* a player could not be created *)
    intros [= -> ->]. left. revert Hset. unfold setup. unfold bind at 1.
    pose proof (create_player_cases t1 "Player 1" (boot rs lines ticks)) as H1.
    destruct (create_player t1 "Player 1" _) as [l1 s1 | e1 s1 |];
      [| | done].
    2: { destruct H1 as (-> & -> & Hnone). intros [= <- <-]. auto. }
    destruct H1 as (_ & _ & _ & _ & _ & Hg1 & Ho1).
    unfold bind at 1.
    pose proof (create_player_cases t2 "Player 2" s1) as H2.
    destruct (create_player t2 "Player 2" _) as [l2 s2 | e2 s2 |];
      [| | done].
    2: { destruct H2 as (-> & -> & Hnone). intros [= <- <-]. auto. }
    destruct timed.
    + unfold new_TimedGameProxy, Game_init, bind, modify, time_time. cbn.
      by destruct (clock s2).
    + unfold new_Game, Game_init, bind, modify. done.
Qed.



(** ** Games of computer players *)

Lemma play_turn_stdin_computer (s : state) (p : loc) :
  active_player s = Some p ->
  cls (heap s !!! p) = ComputerPlayerC ->
  stdin (final (play_turn s)) = stdin s.
Proof.
  intros Hp Hcls. unfold play_turn, bind, gets. destruct (gcls (game s)).
  { by apply (computer_turn_silent s p). }
  rewrite TimedGameProxy_play_turn_unfold.
  destruct (clock s) as [|now rest]; [done |]. cbn.
  destruct (Qgtb _ _).
  - rewrite declare_winner_unfold. cbn. by destruct (py_max _ _).
  - by apply (computer_turn_silent (with_clock rest s) p).
Qed.

(** A game between two computer players never raises and never reads from
    the prompt: however the run ends or wherever the random stream or the
    clock leaves it, every line of the input is still there. *)
Theorem computer_game_quiet (timed : bool) (rs : list Z)
    (lines : list string) (ticks : list Q) :
  (forall e s',
     main "computer" "computer" timed (boot rs lines ticks) ≠ Raise e s') /\
  stdin (final (main "computer" "computer" timed (boot rs lines ticks)))
    = lines.
Proof.
  split.
  { intros e s' Hraise. apply main_raise_cases in Hraise
      as [(_ & _ & [[=] | [=]]) | (_ & _ & _ & [[=] | [=]])]. }
  unfold main. unfold bind at 1.
  destruct (setup "computer" "computer" timed (boot rs lines ticks))
    as [[] s0 | e0 s0 | s0] eqn:Hset.
  - apply setup_classes in Hset as (Hc1 & Hc2 & Hseats & Hin).
    injection Hc1 as Hc1. injection Hc2 as Hc2.
    rewrite start_game_unfold. cbv zeta.
    set (I := fun s : state =>
           seats s /\ stdin s = lines /\
           cls (heap s !!! 0%nat) = ComputerPlayerC /\
           cls (heap s !!! 1%nat) = ComputerPlayerC).
    assert (Hstep : forall s1, I s1 -> is_winner s1 = false ->
                               I (final (play_turn s1))).
    { intros s1 (Hs & Hl & H0 & H1) _.
      pose proof (play_turn_effect s1) as Heff.
      split; [by eapply turn_effect_seats |].
      rewrite !(turn_effect_cls s1 _ _ Heff).
      split; [| done].
      destruct (seats_active s1 Hs) as (p & Hp & [-> | ->]);
        by rewrite (play_turn_stdin_computer s1 _ Hp). }
    match goal with
    | |- context [game_loop ?n ?s] =>
        pose proof (game_loop_inv I Hstep n s) as Hinv
    end.
    specialize (Hinv (conj Hseats (conj Hin (conj (eq_sym Hc1) (eq_sym Hc2))))).
    destruct (game_loop _ _) as [[] s1 | e1 s1 | s1]; cbn in Hinv;
      try apply Hinv.
    destruct (py_max _ _); cbn; apply Hinv.
  - destruct timed; [destruct ticks |]; vm_compute in Hset;
      discriminate Hset.
  - destruct timed; [destruct ticks |]; vm_compute in Hset;
      try discriminate Hset.
    injection Hset as <-. reflexivity.
Qed.

(** A call of [self.play_turn()] that does not return has changed no
    object. *)
Lemma play_turn_unfinished (s : state) :
  match play_turn s with
  | Ret _ _ => True
  | Raise _ s' | Starved s' => heap s' = heap s
  end.
Proof.
  assert (Hgame : forall s1, heap s1 = heap s ->
            match Game_play_turn s1 with
            | Ret _ _ => True
            | Raise _ s' | Starved s' => heap s' = heap s
            end).
  { intros s1 <-. destruct (active_player s1) as [p|] eqn:Hp.
    2: { by rewrite Game_play_turn_index. }
    destruct (Game_play_turn_run s1 p Hp); done. }
  unfold play_turn, bind, gets. destruct (gcls (game s)).
  { by apply Hgame. }
  rewrite TimedGameProxy_play_turn_unfold.
  destruct (clock s) as [|now rest]; [done |]. cbn.
  destruct (Qgtb _ _).
  - rewrite declare_winner_unfold. cbn. by destruct (py_max _ _).
  - by apply Hgame.
Qed.

(** A computer player below 100 before a turn is at 105 at most after it,
    whoever played the turn and however it ended. *)
Lemma play_turn_computer_score (s : state) (p : loc) :
  seats s -> (p = 0%nat \/ p = 1%nat) ->
  Forall die_face (rolls s) ->
  cls (heap s !!! p) = ComputerPlayerC ->
  is_winner s = false ->
  score_of (final (play_turn s)) p <= 105.
Proof.
  intros Hseats Hp Hfaces Hcls Hw.
  assert (Hlow : score_of s p < 100).
  { apply is_winner_false in Hw. destruct Hseats as [Hpl _].
    rewrite Hpl in Hw. apply Forall_cons in Hw as [H0 H1].
    apply Forall_cons in H1 as [H1 _]. by destruct Hp as [-> | ->]. }
  pose proof (play_turn_unfinished s) as Hun.
  destruct (play_turn s) as [[] s' | e s' | s'] eqn:Hturn; cbn;
    try (unfold score_of in *; rewrite Hun; lia).
  destruct (play_turn_ret s s' Hturn)
    as [(s1 & Hret & Hh & Hg & Hr & _) | (_ & Hh & _)].
  2: { unfold score_of in *. rewrite Hh. lia. }
  destruct (seats_active s Hseats) as (q & Hq & _).
  assert (Hq1 : active_player s1 = Some q).
  { unfold active_player in *. by rewrite Hg. }
  destruct (decide (q = p)) as [-> | Hne].
  - apply (computer_turn_gain s1 s' p) in Hret as (_ & Hle & _); try done.
    + by rewrite Hh.
    + by rewrite Hr.
    + unfold score_of in *. by rewrite Hh.
  - apply Game_play_turn_ret in Hret
      as (q' & used & Hq' & _ & _ & _ & Hcase).
    assert (q' = q) as -> by congruence.
    unfold score_of in *.
    destruct Hcase as [(pre & _ & _ & -> & _) | (_ & _ & -> & _)].
    + rewrite Hh. lia.
    + rewrite credit_other, Hh by done. lia.
Qed.

(** The score of a computer player never exceeds 105: in a game [main] has
    set up, with the random stream yielding die faces, whatever
    [start_game] comes to (a return, an exception, or still running where
    the stream ends), each player created as ['computer'] is at 105 at most. *)
Theorem computer_score_at_most_105 (t1 t2 : string) (timed : bool)
    (rs : list Z) (lines : list string) (ticks : list Q) (s0 : state)
    (p : loc) :
  setup t1 t2 timed (boot rs lines ticks) = Ret tt s0 ->
  Forall die_face rs ->
  (p = 0%nat /\ t1 = "computer"%string) \/
  (p = 1%nat /\ t2 = "computer"%string) ->
  score_of (final (start_game s0)) p <= 105.
Proof.
  intros Hset Hfaces Hp.
  pose proof (setup_ret _ _ _ _ _ _ _ Hset)
    as (c1 & c2 & Hh & _ & _ & _ & _ & Hr & _ & _).
  apply setup_classes in Hset as (Hc1 & Hc2 & Hseats & _).
  assert (Hp01 : p = 0%nat \/ p = 1%nat) by (destruct Hp as [[-> _] | [-> _]]; auto).
  assert (Hcls : cls (heap s0 !!! p) = ComputerPlayerC).
  { destruct Hp as [[-> ->] | [-> ->]]; [by injection Hc1 | by injection Hc2]. }
  assert (Hzero : score_of s0 p = 0).
  { unfold score_of. rewrite Hh.
    destruct Hp01 as [-> | ->].
    - rewrite lookup_total_insert_ne by done.
      by rewrite lookup_total_insert_eq.
    - by rewrite lookup_total_insert_eq. }
  rewrite start_game_unfold. cbv zeta.
  set (I := fun s : state =>
         seats s /\ Forall die_face (rolls s) /\
         cls (heap s !!! p) = ComputerPlayerC /\ score_of s p <= 105).
  assert (Hstep : forall s1, I s1 -> is_winner s1 = false ->
                             I (final (play_turn s1))).
  { intros s1 (Hs & Hf & Hc & _) Hw.
    pose proof (play_turn_effect s1) as Heff.
    split; [by eapply turn_effect_seats |].
    split; [by apply (turn_effect_mono s1) |].
    split; [by rewrite (turn_effect_cls s1 _ _ Heff) |].
    by apply play_turn_computer_score. }
  match goal with
  | |- context [game_loop ?n ?s] =>
      pose proof (game_loop_inv I Hstep n s) as Hinv
  end.
  assert (HI : I (with_stdout (stdout s0 ++ [PWelcome]) s0)).
  { split; [done |]. split; [cbn; by rewrite Hr |]. split; [done |].
    change (score_of (with_stdout _ s0) p) with (score_of s0 p). lia. }
  specialize (Hinv HI).
  destruct (game_loop _ _) as [[] s1 | e1 s1 | s1]; cbn in Hinv;
    try apply Hinv.
  destruct (py_max _ _); cbn; apply Hinv.
Qed.

Lemma computer_score_at_most_105_witness :
  let s0 := table "computer" "human" false (repeat 6 40) [] [] in
  score_of (final (start_game s0)) 0%nat <= 105.
Proof.
  cbv zeta.
  apply (computer_score_at_most_105 "computer" "human" false (repeat 6 40)
           [] []).
  - vm_compute. reflexivity.
  - apply Forall_forall. intros r Hr. apply list_elem_of_In in Hr.
    apply repeat_spec in Hr as ->. unfold die_face. lia.
  - left. done.
Defined.

(** ** The time check *)




(** At 60 seconds exactly the turn is still played. *)
Example turn_at_sixty_seconds :
  let s := table "computer" "computer" true [6; 5; 1] [] [0%Q; 60%Q; 61%Q] in
  exists s', TimedGameProxy_play_turn s = Ret tt s' /\
             rolls s' = [] /\ current_player (game s') = 1.
Proof. cbv zeta. eexists. split; [vm_compute; reflexivity |]. by vm_compute. Qed.

(** ** Starting a game that is over *)

(** [start_game] on a game it has already run to its end plays no turn: it
    greets, congratulates the same player with the same score again, and
    changes nothing else. *)
Theorem start_game_again (s s1 : state) :
  start_game s = Ret tt s1 ->
  exists w,
    last (stdout s1) = Some (PCongrats (name_of s1 w) (score_of s1 w)) /\
    start_game s1 =
      Ret tt (with_stdout
                (stdout s1 ++
                 [PWelcome; PCongrats (name_of s1 w) (score_of s1 w)])
                s1).
Proof.
  rewrite start_game_unfold. cbv zeta.
  destruct (game_loop _ _) as [[] s0 | |] eqn:Hloop; [| done | done].
  apply game_loop_exit in Hloop.
  destruct (py_max _ _) as [w|] eqn:Hmax; [| done].
  intros [= <-]. exists w. split; [apply last_snoc |].
  rewrite start_game_unfold. cbv zeta. rewrite game_loop_unfold.
  change (is_winner (with_stdout _ (with_stdout _ s0))) with (is_winner s0).
  rewrite Hloop.
  change (py_max _ _) with (py_max (score_of s0) (players (game s0))).
  rewrite Hmax. cbn. by rewrite <- app_assoc.
Qed.

Lemma start_game_again_witness :
  let s := table "computer" "computer" false (repeat 6 40) [] [] in
  let s1 := final (start_game s) in
  exists w,
    last (stdout s1) = Some (PCongrats (name_of s1 w) (score_of s1 w)) /\
    start_game s1 =
      Ret tt (with_stdout
                (stdout s1 ++
                 [PWelcome; PCongrats (name_of s1 w) (score_of s1 w)])
                s1).
Proof.
  cbv zeta.
  apply (start_game_again
           (table "computer" "computer" false (repeat 6 40) [] [])).
  vm_compute. reflexivity.
Defined.

(** ** The end of the input *)

Lemma body_raise_stdin (p : loc) (s s' : state) (e : exn) :
  play_turn_body p s = Raise e s' -> stdin s' = [].
Proof.
  unfold play_turn_body. exec.
  destruct (rolls s) as [|r rest]; cbn; [done |].
  destruct (r =? 1); cbn; [done |].
  destruct (cls (heap s !!! p)); cbn.
  - destruct (stdin s) as [|line ls] eqn:Hin; cbn.
    + by intros [= _ <-].
    + by destruct (String.eqb (lower line) "h").
  - match goal with
    | |- context [if ?c then _ else _] => by destruct c
    end.
Qed.

Lemma loop_raise_stdin (p : loc) (fuel : nat) (s s' : state) (e : exn) :
  while fuel (ret true) (play_turn_body p) s = Raise e s' ->
  stdin s' = [] /\ (length (rolls s') < length (rolls s))%nat.
Proof.
  revert s. induction fuel as [|n IH]; intros s; [done |].
  rewrite while_true_unfold.
  destruct (play_turn_body p s) as [[] s1 | e1 s1 | s1] eqn:Hbody;
    [done | | | done].
  - intros Hloop. apply IH in Hloop as [Hin Hlen]. split; [done |].
    pose proof (play_turn_body_step p s) as Hstep. rewrite Hbody in Hstep.
    inversion Hstep as [| | | r ? Hr |]; subst. rewrite Hr. cbn. lia.
  - intros [= <- <-]. split; [by eapply body_raise_stdin |].
    pose proof (play_turn_body_step p s) as Hstep. rewrite Hbody in Hstep.
    inversion Hstep as [| | | | r ? Hr]; subst. rewrite Hr. cbn. lia.
Qed.

(** When the input ends under a human player, the turn is abandoned with
    [EOFError] at the prompt after a roll: the rolls it took, none of them a
    1, are in the turn total, no score has changed, and the turn has not
    been passed. *)
Theorem turn_at_end_of_input (s s' : state) (p : loc) (e : exn) :
  active_player s = Some p ->
  Game_play_turn s = Raise e s' ->
  e = EOFError /\
  cls (heap s !!! p) = PlayerC /\
  stdin s' = [] /\
  heap s' = heap s /\
  current_player (game s') = current_player (game s) /\
  exists used,
    rolls s = used ++ rolls s' /\ used ≠ [] /\ (1 ∉ used) /\
    turn_total (game s') = Zsum used.
Proof.
  intros Hp Hraise.
  pose proof (Game_play_turn_run s p Hp) as Hrun. rewrite Hraise in Hrun.
  rewrite (Game_play_turn_unfold s p Hp) in Hraise.
  pose proof (loop_raise_stdin _ _ _ _ _ Hraise) as [Hin Hlen].
  inversion Hrun as [| | used s1 Hr Hused Hh Ht Hc Hs |]; subst.
  cbn in *. split; [done |]. split.
  { destruct (cls (heap s !!! p)) eqn:Hcls; [done |].
    destruct (computer_loop_quiet p (S (length (rolls s)))
                (with_game (with_turn_total 0 (game s)) s) Hcls) as [Hno _].
    exfalso. by apply (Hno EOFError s'). }
  do 3 (split; [done |]). exists used. split; [done |]. split; [| by split].
  intros ->. cbn in Hr. rewrite Hr in Hlen. lia.
Qed.

Lemma turn_at_end_of_input_witness :
  let s := table "human" "computer" false [3; 4] ["r"%string] [] in
  let s' := final (Game_play_turn s) in
  EOFError = EOFError /\
  cls (heap s !!! 0%nat) = PlayerC /\
  stdin s' = [] /\
  heap s' = heap s /\
  current_player (game s') = current_player (game s) /\
  exists used,
    rolls s = used ++ rolls s' /\ used ≠ [] /\ (1 ∉ used) /\
    turn_total (game s') = Zsum used.
Proof.
  cbv zeta. apply (turn_at_end_of_input _ _ 0%nat EOFError).
  - vm_compute. reflexivity.
  - vm_compute. reflexivity.
Defined.

(** ** Scores of players *)

(** [add_to_score] accumulates: adding [a] and then [b] to a player is
    adding [a + b]; additions to two different players can be made in either
    order; and [reset_score] forgets what was added before it, touching
    neither the name nor the class of the player, nor any other player. *)
Theorem score_updates_compose (p q : loc) (a b : Z) (s : state) :
  (run add_to_score p a; add_to_score p b) s = add_to_score p (a + b) s /\
  (p ≠ q ->
   (run add_to_score p a; add_to_score q b) s =
   (run add_to_score q b; add_to_score p a) s) /\
  (run add_to_score p a; reset_score p) s = reset_score p s /\
  (let s' := final (reset_score p s) in
   score_of s' p = 0 /\ name_of s' p = name_of s p /\
   cls (heap s' !!! p) = cls (heap s !!! p) /\
   (p ≠ q -> heap s' !!! q = heap s !!! q)).
Proof.
  unfold add_to_score, reset_score, bind, modify, with_heap, credit. cbn.
  split; [| split; [| split]].
  - rewrite lookup_total_insert_eq, insert_insert_eq. cbn.
    by rewrite Z.add_assoc.
  - intros Hne.
    rewrite !lookup_total_insert_ne by done.
    by rewrite insert_insert_ne.
  - rewrite lookup_total_insert_eq, insert_insert_eq. done.
  - unfold score_of, name_of. cbn. rewrite !lookup_total_insert_eq.
    repeat split. intros Hne. by rewrite lookup_total_insert_ne.
Qed.

(** ** Two computers and no 1 *)

Lemma Zsum_no_ones (l : list Z) :
  Forall (fun r => 2 <= r <= 6) l -> l ≠ [] -> 2 <= Zsum l.
Proof.
  intros Hl Hne. destruct l as [|r l]; [done |].
  apply Forall_cons in Hl as [Hr Hl]. rewrite Zsum_cons.
  assert (0 <= Zsum l); [| lia].
  apply Zsum_die_faces. eapply Forall_impl; [exact Hl |].
  unfold die_face. cbn. intros; lia.
Qed.

(** A turn of such a game: the active player banks at least its threshold
    and at most 5 more, within 13 rolls, and the turn passes. *)
Lemma duel_turn (s : state) (k : nat) (p : loc) :
  duel s (S k) ->
  (p = 0%nat \/ p = 1%nat) ->
  current_player (game s) = Z.of_nat p ->
  score_of s p < 100 ->
  exists s',
    play_turn s = Ret tt s' /\
    duel s' k /\
    current_player (game s') = 1 - Z.of_nat p /\
    hold_at (score_of s p) <= score_of s' p - score_of s p
      <= hold_at (score_of s p) + 5 /\
    (forall l, l ≠ p -> score_of s' l = score_of s l) /\
    (length (rolls s) <= length (rolls s') + 13)%nat.
Proof.
  intros (Hpl & Hcls & Hc0 & Hc1 & Hnm & Hrolls & Hlen) Hp Hcp Hsc.
  assert (Hact : active_player s = Some p).
  { unfold active_player. rewrite Hpl, Hcp. by destruct Hp as [-> | ->]. }
  assert (Hcomp : cls (heap s !!! p) = ComputerPlayerC).
  { by destruct Hp as [-> | ->]. }
  assert (Hfaces : Forall die_face (rolls s)).
  { eapply Forall_impl; [exact Hrolls |]. unfold die_face. cbn. intros; lia. }
  unfold play_turn, bind, gets. rewrite Hcls.
  destruct (computer_turn_ends s p Hact Hcomp Hfaces ltac:(lia))
    as (s' & Hret & Hlen').
  exists s'. split; [done |].
  pose proof (Game_play_turn_ret s s' Hret)
    as (p' & used & Hp' & Hr & Hc' & (Hg & Hpl' & _ & _) & Hcase).
  assert (p' = p) as -> by congruence.
  rewrite Hr in Hrolls. apply Forall_app in Hrolls as [Hused Hrest].
  destruct Hcase as [(pre & -> & _) | (Hne & _ & Hh & _)].
  { apply Forall_app in Hused as [_ Hone].
    apply Forall_cons in Hone as [Hone _]. lia. }
  pose proof (Zsum_no_ones used Hused Hne) as Hsum.
  pose proof (computer_turn_gain s s' p Hact Hcomp Hfaces Hsc Hret)
    as (Hgain & _ & Hothers).
  assert (Hscore : score_of s' p = score_of s p + Zsum used).
  { unfold score_of. by rewrite Hh, credit_score. }
  split.
  { unfold duel, name_of. rewrite Hpl', Hg, Hpl, Hcls, Hh.
    do 2 (split; [done |]).
    assert (Hkeep : forall l, cls (credit p (Zsum used) (heap s) !!! l)
                                = cls (heap s !!! l) /\
                              name (credit p (Zsum used) (heap s) !!! l)
                                = name (heap s !!! l)).
    { intros l. destruct (decide (l = p)) as [-> | Hl].
      - by rewrite credit_cls, credit_name.
      - by rewrite credit_other. }
    rewrite !(proj1 (Hkeep _)), (proj2 (Hkeep _)).
    do 3 (split; [done |]). split; [done |]. lia. }
  split; [by rewrite Hc', Hcp |].
  split; [destruct Hgain as [? | [? _]]; lia |].
  split; [| done].
  intros l Hl. unfold score_of. by rewrite Hothers.
Qed.

Lemma duel_no_winner (s : state) (k : nat) :
  duel s k -> score_of s 0%nat < 100 -> score_of s 1%nat < 100 ->
  is_winner s = false.
Proof.
  intros (Hpl & _) H0 H1. apply is_winner_false. rewrite Hpl.
  by repeat constructor.
Qed.

(** A loop that returned returns the same with more iterations allowed. *)
Lemma game_loop_more (n m : nat) (s s' : state) :
  game_loop n s = Ret tt s' -> (n <= m)%nat -> game_loop m s = Ret tt s'.
Proof.
  revert m s. induction n as [|n IH]; intros m s; [done |].
  destruct m as [|m]; [lia |]. rewrite !game_loop_unfold.
  destruct (is_winner s); [done |].
  destruct (play_turn s) as [[] s1 | |]; [| done | done].
  intros Hloop Hle. apply IH; [done | lia].
Qed.

(** Seven turns of such a game, from 0 to 0 with the first player to move,
    give the first player 100 or more and leave the second at 90 at most. *)
Lemma duel_seven_turns (s : state) :
  duel s 7 ->
  current_player (game s) = 0 ->
  score_of s 0%nat = 0 -> score_of s 1%nat = 0 ->
  exists s',
    game_loop 8 s = Ret tt s' /\
    duel s' 0 /\
    100 <= score_of s' 0%nat <= 105 /\
    75 <= score_of s' 1%nat <= 90 /\
    (length (rolls s) <= length (rolls s') + 91)%nat.
Proof.
  intros Hd0 Hcp0 Ha0 Hb0.
  destruct (duel_turn s 6 0%nat Hd0 ltac:(auto) Hcp0 ltac:(lia))
    as (s1 & Ht1 & Hd1 & Hcp1 & Hg1 & Ho1 & Hl1).
  pose proof (Ho1 1%nat ltac:(done)) as Hb1.
  destruct (duel_turn s1 5 1%nat Hd1 ltac:(auto) Hcp1
              ltac:(unfold hold_at in *; lia))
    as (s2 & Ht2 & Hd2 & Hcp2 & Hg2 & Ho2 & Hl2).
  pose proof (Ho2 0%nat ltac:(done)) as Ha2.
  destruct (duel_turn s2 4 0%nat Hd2 ltac:(auto) Hcp2
              ltac:(unfold hold_at in *; lia))
    as (s3 & Ht3 & Hd3 & Hcp3 & Hg3 & Ho3 & Hl3).
  pose proof (Ho3 1%nat ltac:(done)) as Hb3.
  destruct (duel_turn s3 3 1%nat Hd3 ltac:(auto) Hcp3
              ltac:(unfold hold_at in *; lia))
    as (s4 & Ht4 & Hd4 & Hcp4 & Hg4 & Ho4 & Hl4).
  pose proof (Ho4 0%nat ltac:(done)) as Ha4.
  destruct (duel_turn s4 2 0%nat Hd4 ltac:(auto) Hcp4
              ltac:(unfold hold_at in *; lia))
    as (s5 & Ht5 & Hd5 & Hcp5 & Hg5 & Ho5 & Hl5).
  pose proof (Ho5 1%nat ltac:(done)) as Hb5.
  destruct (duel_turn s5 1 1%nat Hd5 ltac:(auto) Hcp5
              ltac:(unfold hold_at in *; lia))
    as (s6 & Ht6 & Hd6 & Hcp6 & Hg6 & Ho6 & Hl6).
  pose proof (Ho6 0%nat ltac:(done)) as Ha6.
  destruct (duel_turn s6 0 0%nat Hd6 ltac:(auto) Hcp6
              ltac:(unfold hold_at in *; lia))
    as (s7 & Ht7 & Hd7 & Hcp7 & Hg7 & Ho7 & Hl7).
  pose proof (Ho7 1%nat ltac:(done)) as Hb7.
  unfold hold_at in *.
  exists s7. split.
  { rewrite game_loop_unfold, (duel_no_winner s 7), Ht1 by (done || lia).
    rewrite game_loop_unfold, (duel_no_winner s1 6), Ht2 by (done || lia).
    rewrite game_loop_unfold, (duel_no_winner s2 5), Ht3 by (done || lia).
    rewrite game_loop_unfold, (duel_no_winner s3 4), Ht4 by (done || lia).
    rewrite game_loop_unfold, (duel_no_winner s4 3), Ht5 by (done || lia).
    rewrite game_loop_unfold, (duel_no_winner s5 2), Ht6 by (done || lia).
    rewrite game_loop_unfold, (duel_no_winner s6 1), Ht7 by (done || lia).
    rewrite game_loop_unfold.
    replace (is_winner s7) with true; [done |].
    symmetry. apply is_winner_true. destruct Hd7 as (-> & _).
    apply Exists_cons. left. lia. }
  split; [done |]. repeat split; lia.
Qed.

(** The first player wins when no 1 is rolled. A game between two computer
    players whose random stream holds 91 rolls or more and no 1 comes to an
    end within 91 rolls: the first player has played four turns and stands
    between 100 and 105, the second has played three and stands between 75
    and 90, and Player 1 is congratulated. *)
Theorem first_player_wins_without_ones (rs : list Z) (lines : list string)
    (ticks : list Q) :
  Forall (fun r => 2 <= r <= 6) rs ->
  (91 <= length rs)%nat ->
  exists s',
    main "computer" "computer" false (boot rs lines ticks) = Ret tt s' /\
    100 <= score_of s' 0%nat <= 105 /\
    75 <= score_of s' 1%nat <= 90 /\
    last (stdout s') = Some (PCongrats "Player 1" (score_of s' 0%nat)) /\
    (length rs <= length (rolls s') + 91)%nat.
Proof.
  intros Hrs Hlen. unfold main. unfold bind at 1.
  destruct (setup "computer" "computer" false (boot rs lines ticks))
    as [[] s0 | |] eqn:Hset;
    [| vm_compute in Hset; discriminate Hset
     | vm_compute in Hset; discriminate Hset].
  pose proof (setup_ret _ _ _ _ _ _ _ Hset)
    as (c1 & c2 & Hh & Hpl & Hcp & _ & Hcls & Hr & _ & _).
  apply setup_classes in Hset as (Hc1 & Hc2 & _ & _).
  injection Hc1 as Hc1. injection Hc2 as Hc2.
  assert (Hscores : score_of s0 0%nat = 0 /\ score_of s0 1%nat = 0 /\
                    name_of s0 0%nat = "Player 1"%string).
  { unfold score_of, name_of. rewrite Hh.
    rewrite lookup_total_insert_ne by done.
    by rewrite !lookup_total_insert_eq. }
  destruct Hscores as (Ha & Hb & Hnm).
  rewrite start_game_unfold. cbv zeta.
  set (sw := with_stdout (stdout s0 ++ [PWelcome]) s0).
  destruct (duel_seven_turns sw) as (s7 & Hloop & Hd7 & Ha7 & Hb7 & Hl7);
    try done.
  { unfold duel. cbn. rewrite Hpl, Hcls, <- Hc1, <- Hc2, Hr.
    repeat split; done. }
  rewrite (game_loop_more 8 _ sw s7 Hloop) by (cbn; rewrite Hr; lia).
  destruct Hd7 as (Hpl7 & _ & _ & _ & Hnm7 & _).
  rewrite Hpl7, py_max_two.
  replace (score_of s7 0%nat <? score_of s7 1%nat) with false
    by (symmetry; apply Z.ltb_ge; lia).
  eexists. split; [done |]. cbn. unfold score_of in *. cbn.
  do 2 (split; [lia |]). split.
  { rewrite last_snoc. by rewrite Hnm7. }
  cbn in Hl7. rewrite Hr in Hl7. lia.
Qed.

Lemma first_player_wins_without_ones_witness :
  exists s',
    main "computer" "computer" false (boot (repeat 2 91) [] []) = Ret tt s' /\
    100 <= score_of s' 0%nat <= 105 /\
    75 <= score_of s' 1%nat <= 90 /\
    last (stdout s') = Some (PCongrats "Player 1" (score_of s' 0%nat)) /\
    (length (repeat 2 91) <= length (rolls s') + 91)%nat.
Proof.
  apply first_player_wins_without_ones.
  - apply Forall_forall. intros r Hr. apply list_elem_of_In in Hr.
    apply repeat_spec in Hr as ->. lia.
  - vm_compute. lia.
Defined.

(** ** A turn of a human player *)

Lemma bust_body (p : loc) (s : state) (rest : list Z) :
  rolls s = 1 :: rest ->
  exists s',
    play_turn_body p s = Ret Break s' /\
    rolls s' = rest /\ stdin s' = stdin s /\ heap s' = heap s /\
    turn_total (game s') = 0 /\
    current_player (game s') = 1 - current_player (game s).
Proof.
  intros Hr. unfold play_turn_body. exec. rewrite Hr. cbn. by eexists.
Qed.

Lemma human_body (p : loc) (s : state) (r : Z) (rest : list Z)
    (line : string) (ls : list string) :
  cls (heap s !!! p) = PlayerC ->
  rolls s = r :: rest -> r ≠ 1 ->
  stdin s = line :: ls ->
  exists s',
    play_turn_body p s =
      Ret (if String.eqb (lower line) "h" then Break else Continue) s' /\
    rolls s' = rest /\ stdin s' = ls /\
    turn_total (game s') = turn_total (game s) + r /\
    heap s' = (if String.eqb (lower line) "h"
               then credit p (turn_total (game s) + r) (heap s)
               else heap s) /\
    current_player (game s') =
      (if String.eqb (lower line) "h" then 1 - current_player (game s)
       else current_player (game s)).
Proof.
  intros Hcls Hr Hne Hin. unfold play_turn_body. exec. rewrite Hr. cbn.
  destruct (Z.eqb_spec r 1) as [| _]; [done |]. cbn.
  rewrite Hcls. cbn. rewrite Hin. cbn.
  destruct (String.eqb (lower line) "h"); cbn; by eexists.
Qed.

Lemma human_loop_banks (p : loc) (waits : list string) :
  forall (used : list Z) (s : state) (fuel : nat) (line : string)
         (more : list string) (rest : list Z),
  cls (heap s !!! p) = PlayerC ->
  rolls s = used ++ rest ->
  stdin s = waits ++ line :: more ->
  length used = S (length waits) ->
  1 ∉ used ->
  Forall (fun l => lower l ≠ "h"%string) waits ->
  lower line = "h"%string ->
  (length used <= fuel)%nat ->
  exists s',
    while fuel (ret true) (play_turn_body p) s = Ret tt s' /\
    heap s' = credit p (turn_total (game s) + Zsum used) (heap s) /\
    turn_total (game s') = turn_total (game s) + Zsum used /\
    rolls s' = rest /\ stdin s' = more /\
    current_player (game s') = 1 - current_player (game s).
Proof.
  induction waits as [|w ws IH];
    intros used s fuel line more rest Hcls Hr Hin Hlen Hone Hws Hline Hfuel.
  - destruct used as [|r [|? ?]]; try done. destruct fuel as [|fuel]; [cbn in Hfuel; lia |].
    apply not_elem_of_cons in Hone as [Hne _].
    destruct (human_body p s r rest line more Hcls Hr ltac:(congruence) Hin)
      as (s' & Hbody & Hr' & Hin' & Ht & Hh & Hc).
    apply String.eqb_eq in Hline. rewrite Hline in *.
    exists s'. rewrite while_true_unfold, Hbody, Hh, Ht, Hc. cbn.
    repeat split; try done. do 2 f_equal. lia. lia.
  - destruct used as [|r used]; [done |]. destruct fuel as [|fuel]; [cbn in Hfuel; lia |].
    apply not_elem_of_cons in Hone as [Hne Hone].
    apply Forall_cons in Hws as [Hw Hws].
    destruct (human_body p s r (used ++ rest) w (ws ++ line :: more)
                Hcls Hr ltac:(congruence) Hin)
      as (s1 & Hbody & Hr1 & Hin1 & Ht1 & Hh1 & Hc1).
    apply String.eqb_neq in Hw. rewrite Hw in *.
    destruct (IH used s1 fuel line more rest) as (s' & Hloop & Hh & Ht & Hr' & Hin' & Hc);
      try done.
    { by rewrite Hh1. }
    { cbn in Hlen. lia. }
    { cbn in Hfuel. lia. }
    exists s'. rewrite while_true_unfold, Hbody, Hloop, Hh, Ht, Hc, Hh1, Ht1, Hc1.
    rewrite Zsum_cons. repeat split; try done. f_equal. lia. lia.
Qed.

Lemma human_loop_busts (p : loc) (waits : list string) :
  forall (pre : list Z) (s : state) (fuel : nat)
         (more : list string) (rest : list Z),
  cls (heap s !!! p) = PlayerC ->
  rolls s = pre ++ 1 :: rest ->
  stdin s = waits ++ more ->
  length pre = length waits ->
  1 ∉ pre ->
  Forall (fun l => lower l ≠ "h"%string) waits ->
  (length pre < fuel)%nat ->
  exists s',
    while fuel (ret true) (play_turn_body p) s = Ret tt s' /\
    heap s' = heap s /\
    turn_total (game s') = 0 /\
    rolls s' = rest /\ stdin s' = more /\
    current_player (game s') = 1 - current_player (game s).
Proof.
  induction waits as [|w ws IH];
    intros pre s fuel more rest Hcls Hr Hin Hlen Hone Hws Hfuel.
  - destruct pre; [| done]. destruct fuel as [|fuel]; [lia |].
    destruct (bust_body p s rest Hr) as (s' & Hbody & Hr' & Hin' & Hh & Ht & Hc).
    exists s'. rewrite while_true_unfold, Hbody. rewrite Hin'. by repeat split.
  - destruct pre as [|r pre]; [done |]. destruct fuel as [|fuel]; [lia |].
    apply not_elem_of_cons in Hone as [Hne Hone].
    apply Forall_cons in Hws as [Hw Hws].
    destruct (human_body p s r (pre ++ 1 :: rest) w (ws ++ more)
                Hcls Hr ltac:(congruence) Hin)
      as (s1 & Hbody & Hr1 & Hin1 & Ht1 & Hh1 & Hc1).
    apply String.eqb_neq in Hw. rewrite Hw in *.
    destruct (IH pre s1 fuel more rest) as (s' & Hloop & Hh & Ht & Hr' & Hin' & Hc);
      try done.
    { by rewrite Hh1. }
    { cbn in Hlen. lia. }
    { cbn in Hfuel. lia. }
    exists s'. rewrite while_true_unfold, Hbody, Hloop, Hh, Hc, Hh1, Hc1.
    by repeat split.
Qed.

Lemma not_h_lower (waits : list string) :
  Forall (fun l => l ≠ "h"%string /\ l ≠ "H"%string) waits ->
  Forall (fun l => lower l ≠ "h"%string) waits.
Proof.
  intros Hws. eapply Forall_impl; [exact Hws |].
  intros l [H1 H2] Hl. apply lower_h in Hl. tauto.
Qed.

(** A human player's turn ends at the first answer that is [h] or [H], if
    no 1 comes first: with [n] rolls free of 1 to come, [n - 1] answers that
    are neither and then one that is, [Game.play_turn] returns having taken
    exactly those rolls and those lines, with the sum of the rolls added to
    the score of the player, nobody else changed, and the turn passed. *)
Theorem human_turn_banks (s : state) (p : loc) (used rest : list Z)
    (waits : list string) (line : string) (more : list string) :
  active_player s = Some p ->
  cls (heap s !!! p) = PlayerC ->
  rolls s = used ++ rest ->
  stdin s = waits ++ line :: more ->
  length used = S (length waits) ->
  1 ∉ used ->
  Forall (fun l => l ≠ "h"%string /\ l ≠ "H"%string) waits ->
  line = "h"%string \/ line = "H"%string ->
  exists s',
    Game_play_turn s = Ret tt s' /\
    score_of s' p = score_of s p + Zsum used /\
    (forall l, l ≠ p -> heap s' !!! l = heap s !!! l) /\
    rolls s' = rest /\ stdin s' = more /\
    current_player (game s') = 1 - current_player (game s).
Proof.
  intros Hp Hcls Hr Hin Hlen Hone Hws Hline.
  rewrite (Game_play_turn_unfold s p Hp).
  destruct (human_loop_banks p waits used
              (with_game (with_turn_total 0 (game s)) s)
              (S (length (rolls s))) line more rest)
    as (s' & Hloop & Hh & _ & Hr' & Hin' & Hc); try done.
  { by apply not_h_lower. }
  { by apply lower_h. }
  { rewrite Hr, length_app. lia. }
  exists s'. split; [done |]. cbn in Hh, Hc. unfold score_of.
  rewrite Hh, credit_score, Z.add_0_l. repeat split; try done.
  intros l Hl. by apply credit_other.
Qed.

Lemma human_turn_banks_witness :
  let s := table "human" "computer" false [4; 6; 3; 5]
                 ["r"%string; "hold"%string; "H"%string; "x"%string] [] in
  exists s',
    Game_play_turn s = Ret tt s' /\
    score_of s' 0%nat = score_of s 0%nat + Zsum [4; 6; 3] /\
    (forall l, l ≠ 0%nat -> heap s' !!! l = heap s !!! l) /\
    rolls s' = [5] /\ stdin s' = ["x"%string] /\
    current_player (game s') = 1 - current_player (game s).
Proof.
  cbv zeta.
  apply (human_turn_banks _ 0%nat [4; 6; 3] [5]
           ["r"%string; "hold"%string] "H"%string ["x"%string]).
  - vm_compute. reflexivity.
  - vm_compute. reflexivity.
  - vm_compute. reflexivity.
  - vm_compute. reflexivity.
  - reflexivity.
  - no_one.
  - repeat constructor; discriminate.
  - by right.
Defined.

(** A human player's turn ends at the first 1, if no answer [h] or [H]
    comes first: with [n] rolls free of 1 and then a 1 to come, and [n]
    answers that are neither, [Game.play_turn] returns having taken exactly
    those rolls and those lines, with every score as it was and the turn
    passed. *)
Theorem human_turn_busts (s : state) (p : loc) (pre rest : list Z)
    (waits more : list string) :
  active_player s = Some p ->
  cls (heap s !!! p) = PlayerC ->
  rolls s = pre ++ 1 :: rest ->
  stdin s = waits ++ more ->
  length pre = length waits ->
  1 ∉ pre ->
  Forall (fun l => l ≠ "h"%string /\ l ≠ "H"%string) waits ->
  exists s',
    Game_play_turn s = Ret tt s' /\
    heap s' = heap s /\
    turn_total (game s') = 0 /\
    rolls s' = rest /\ stdin s' = more /\
    current_player (game s') = 1 - current_player (game s).
Proof.
  intros Hp Hcls Hr Hin Hlen Hone Hws.
  rewrite (Game_play_turn_unfold s p Hp).
  destruct (human_loop_busts p waits pre
              (with_game (with_turn_total 0 (game s)) s)
              (S (length (rolls s))) more rest)
    as (s' & Hloop & Hh & Ht & Hr' & Hin' & Hc); try done.
  { by apply not_h_lower. }
  { rewrite Hr, length_app. cbn. lia. }
  by exists s'.
Qed.

Lemma human_turn_busts_witness :
  let s := table "human" "computer" false [4; 6; 1; 5]
                 ["r"%string; "hold"%string; "h"%string] [] in
  exists s',
    Game_play_turn s = Ret tt s' /\
    heap s' = heap s /\
    turn_total (game s') = 0 /\
    rolls s' = [5] /\ stdin s' = ["h"%string] /\
    current_player (game s') = 1 - current_player (game s).
Proof.
  cbv zeta.
  apply (human_turn_busts _ 0%nat [4; 6] [5]
           ["r"%string; "hold"%string] ["h"%string]).
  - vm_compute. reflexivity.
  - vm_compute. reflexivity.
  - vm_compute. reflexivity.
  - vm_compute. reflexivity.
  - reflexivity.
  - no_one.
  - repeat constructor; discriminate.
Defined.

(** ** Tests of the embedding *)

Example computer_game :
  match main "computer" "computer" false (boot (repeat 6 40) [] []) with
  | Ret _ s => (score_of s 0%nat, score_of s 1%nat, last (stdout s))
  | _ => (0, 0, None)
  end = (102, 90, Some (PCongrats "Player 1" 102)).
Proof. vm_compute. reflexivity. Qed.

